(** * Email engagement tracker: link rewriting and the engagement state machine

    A shallow embedding of [server.js]: the helper [rewriteLinksForTracking]
    with the regular expression it uses, the built-ins [encodeURIComponent]
    and [decodeURIComponent] it relies on, and the request handlers for
    [/api/send-email], [/api/click] and [/api/pixel/:id] over a record store
    keyed by tracking identifier. *)

From Stdlib Require Import NArith ZArith Lia Strings.String Strings.Ascii.
From stdpp Require Import gmap list.

Local Open Scope N_scope.

(** ** JavaScript values *)

(** A JavaScript string is a sequence of UTF-16 code units (numbers below
    2^16); [String.prototype] methods and regular expressions without the
    [u] flag work on code units. *)
Abbreviation JSString := (list N).

(** Code units of an ASCII literal. *)
Definition lit (s : string) : JSString :=
  map N_of_ascii (list_ascii_of_string s).

(** The double quote U+0022. *)
Definition dquote : N := 34.

(** [jsq] reads a literal in which the backquote stands for the double
    quote, so that HTML test inputs stay readable. *)
Definition jsq (s : string) : JSString :=
  map (fun c => if c =? 96 then dquote else c) (lit s).

Inductive JSError : Type :=
| URIError        (* thrown by encodeURIComponent / decodeURIComponent *)
| TypeError       (* method call on undefined *)
| StoreError      (* the record store rejected a lookup or an update *)
| DuplicateKey    (* unique index on trackingId violated *)
| MailError.      (* transporter.sendMail rejected *)

(** Outcome of an expression that may throw. *)
Inductive Result (A : Type) : Type :=
| Ok (a : A)
| Throw (e : JSError).
Arguments Ok {A} a.
Arguments Throw {A} e.

Definition rbind {A B} (x : Result A) (f : A -> Result B) : Result B :=
  match x with
  | Ok a => f a
  | Throw e => Throw e
  end.

Notation "'let!' x ':=' c 'in' k" := (rbind c (fun x => k))
  (at level 10, x name, c at level 100, k at level 200).

(** JavaScript truthiness of a value that is a string or undefined:
    undefined and the empty string are falsy. *)
Definition truthy (v : option JSString) : bool :=
  match v with
  | Some (_ :: _) => true
  | _ => false
  end.

(** [a || b] on such values. *)
Definition orElse (a b : option JSString) : option JSString :=
  if truthy a then a else b.

(** [s.startsWith(p)] *)
Fixpoint startsWith (s p : JSString) : bool :=
  match p, s with
  | [], _ => true
  | _ :: _, [] => false
  | a :: p', c :: s' => (c =? a) && startsWith s' p'
  end.

(** ** encodeURIComponent and decodeURIComponent (ECMA-262, 19.2.6) *)

Module URI.

Definition isAlnum (c : N) : bool :=
  ((48 <=? c) && (c <=? 57)) || ((65 <=? c) && (c <=? 90))
  || ((97 <=? c) && (c <=? 122)).

(** uriUnescaped = uriAlpha, DecimalDigit, uriMark: the code units
    encodeURIComponent leaves alone. *)
Definition uriUnescaped (c : N) : bool :=
  isAlnum c || existsb (N.eqb c) (lit "-_.!~*'()").

Definition isLeadSurrogate (c : N) : bool := (0xD800 <=? c) && (c <=? 0xDBFF).
Definition isTrailSurrogate (c : N) : bool := (0xDC00 <=? c) && (c <=? 0xDFFF).

(** UTF-8 octets of a code point. *)
Definition utf8 (cp : N) : list N :=
  if cp <? 0x80 then [cp]
  else if cp <? 0x800 then
    [N.lor 0xC0 (N.shiftr cp 6); N.lor 0x80 (N.land cp 0x3F)]
  else if cp <? 0x10000 then
    [N.lor 0xE0 (N.shiftr cp 12);
     N.lor 0x80 (N.land (N.shiftr cp 6) 0x3F);
     N.lor 0x80 (N.land cp 0x3F)]
  else
    [N.lor 0xF0 (N.shiftr cp 18);
     N.lor 0x80 (N.land (N.shiftr cp 12) 0x3F);
     N.lor 0x80 (N.land (N.shiftr cp 6) 0x3F);
     N.lor 0x80 (N.land cp 0x3F)].

(** Upper-case hexadecimal digit of a value below 16. *)
Definition hexDigit (d : N) : N :=
  if d <? 10 then 48 + d else 55 + d.

Definition percent : N := 37.

(** "%XY" for one octet. *)
Definition escapeOctet (b : N) : JSString :=
  [percent; hexDigit (N.shiftr b 4); hexDigit (N.land b 0xF)].

Definition escapeOctets (bs : list N) : JSString :=
  concat (map escapeOctet bs).

(** Encode(string, uriUnescaped): an unescaped code unit is copied; any
    other is read as a code point (a surrogate pair is one code point, an
    unpaired surrogate throws URIError) and replaced by the escapes of its
    UTF-8 octets. *)
Fixpoint encodeURIComponent (s : JSString) : Result JSString :=
  match s with
  | [] => Ok []
  | c :: s1 =>
      if uriUnescaped c then
        let! r := encodeURIComponent s1 in Ok (c :: r)
      else if isTrailSurrogate c then Throw URIError
      else if isLeadSurrogate c then
        match s1 with
        | d :: s2 =>
            if isTrailSurrogate d then
              let cp := (c - 0xD800) * 0x400 + (d - 0xDC00) + 0x10000 in
              let! r := encodeURIComponent s2 in Ok (escapeOctets (utf8 cp) ++ r)
            else Throw URIError
        | [] => Throw URIError
        end
      else
        let! r := encodeURIComponent s1 in Ok (escapeOctets (utf8 c) ++ r)
  end.

(** Value of a hexadecimal digit, either case. *)
Definition hexValue (c : N) : option N :=
  if (48 <=? c) && (c <=? 57) then Some (c - 48)
  else if (65 <=? c) && (c <=? 70) then Some (c - 55)
  else if (97 <=? c) && (c <=? 102) then Some (c - 87)
  else None.

(** Decoding reads the string as a sequence of items: a code unit other
    than "%", or the octet of an escape "%XY". *)
Inductive Item : Type :=
| Unit (c : N)
| Octet (b : N).

(** A "%" that is not followed by two hexadecimal digits throws. *)
Fixpoint unescapeItems (s : JSString) : Result (list Item) :=
  match s with
  | [] => Ok []
  | c :: s1 =>
      if c =? percent then
        match s1 with
        | h1 :: h2 :: s2 =>
            match hexValue h1, hexValue h2 with
            | Some v1, Some v2 =>
                let! r := unescapeItems s2 in Ok (Octet (16 * v1 + v2) :: r)
            | _, _ => Throw URIError
            end
        | _ => Throw URIError
        end
      else
        let! r := unescapeItems s1 in Ok (Unit c :: r)
  end.

(** Continuation octets have the form 10xxxxxx. *)
Definition isCont (b : N) : bool := (0x80 <=? b) && (b <=? 0xBF).

Definition contBits (b : N) : N := N.land b 0x3F.

(** UTF16EncodeCodePoint *)
Definition utf16 (cp : N) : JSString :=
  if cp <? 0x10000 then [cp]
  else [0xD800 + N.shiftr (cp - 0x10000) 10;
        0xDC00 + N.land (cp - 0x10000) 0x3FF].

(** Decode(string, empty set): an octet below 0x80 is that code unit; an
    octet with n = 2, 3 or 4 leading one bits starts a sequence of n
    escapes that must be the UTF-8 encoding of a code point (no overlong
    form, no surrogate, at most U+10FFFF); anything else throws
    URIError. *)
Fixpoint decodeItems (l : list Item) : Result JSString :=
  match l with
  | [] => Ok []
  | Unit c :: l1 => let! r := decodeItems l1 in Ok (c :: r)
  | Octet b :: l1 =>
      if b <? 0x80 then let! r := decodeItems l1 in Ok (b :: r)
      else if b <? 0xC0 then Throw URIError
      else if b <? 0xE0 then
        match l1 with
        | Octet b1 :: l2 =>
            let cp := N.shiftl (N.land b 0x1F) 6 + contBits b1 in
            if isCont b1 && (0x80 <=? cp) then
              let! r := decodeItems l2 in Ok (utf16 cp ++ r)
            else Throw URIError
        | _ => Throw URIError
        end
      else if b <? 0xF0 then
        match l1 with
        | Octet b1 :: Octet b2 :: l3 =>
            let cp := N.shiftl (N.land b 0x0F) 12
                      + N.shiftl (contBits b1) 6 + contBits b2 in
            if isCont b1 && isCont b2 && (0x800 <=? cp)
               && negb ((0xD800 <=? cp) && (cp <=? 0xDFFF)) then
              let! r := decodeItems l3 in Ok (utf16 cp ++ r)
            else Throw URIError
        | _ => Throw URIError
        end
      else if b <? 0xF8 then
        match l1 with
        | Octet b1 :: Octet b2 :: Octet b3 :: l4 =>
            let cp := N.shiftl (N.land b 0x07) 18
                      + N.shiftl (contBits b1) 12
                      + N.shiftl (contBits b2) 6 + contBits b3 in
            if isCont b1 && isCont b2 && isCont b3
               && (0x10000 <=? cp) && (cp <=? 0x10FFFF) then
              let! r := decodeItems l4 in Ok (utf16 cp ++ r)
            else Throw URIError
        | _ => Throw URIError
        end
      else Throw URIError
  end.

Definition decodeURIComponent (s : JSString) : Result JSString :=
  let! l := unescapeItems s in decodeItems l.

End URI.

(** ** Regular expressions (the backtracking matcher of ECMA-262, 22.2.2)

    The fragment needed for [linkRegex]: pattern characters, the classes
    [[^c]], [\s] and [.], sequence, greedy and lazy [*] over one character
    class, [?] and capturing groups. *)

Module Regex.

Inductive CharClass : Type :=
| CChar (a : N)     (* the pattern character a *)
| CNot (a : N)      (* [^a] *)
| CSpace            (* \s *)
| CDot.             (* . *)

Inductive regex : Type :=
| Eps
| Chr (cl : CharClass)
| Cat (r1 r2 : regex)
| Star (greedy : bool) (cl : CharClass)     (* cl* when greedy, else cl*? *)
| Opt (r : regex)                           (* (?:r)? *)
| Grp (n : nat) (r : regex).                (* the n-th capturing group *)

(** cl+ *)
Definition plus (cl : CharClass) : regex := Cat (Chr cl) (Star true cl).

Definition seq (rs : list regex) : regex := foldr Cat Eps rs.

(** A run of pattern characters. *)
Definition str (s : JSString) : regex := seq (map (fun a => Chr (CChar a)) s).

(** Canonicalize under the [i] flag without the [u] flag: the code unit is
    mapped to upper case, except that a code unit from 128 on never maps
    below 128. On the ASCII range this is the mapping of a-z to A-Z; the
    pattern characters of [linkRegex] are all ASCII, so a code unit from
    128 on, which keeps a value from 128 on, matches none of them. *)
Definition canonicalize (c : N) : N :=
  if (97 <=? c) && (c <=? 122) then c - 32 else c.

(** WhiteSpace and LineTerminator code points, the class [\s]. *)
Definition isWhiteSpace (c : N) : bool :=
  ((9 <=? c) && (c <=? 13)) || (c =? 32) || (c =? 0xA0) || (c =? 0x1680)
  || ((0x2000 <=? c) && (c <=? 0x200A)) || (c =? 0x2028) || (c =? 0x2029)
  || (c =? 0x202F) || (c =? 0x205F) || (c =? 0x3000) || (c =? 0xFEFF).

Definition isLineTerminator (c : N) : bool :=
  (c =? 10) || (c =? 13) || (c =? 0x2028) || (c =? 0x2029).

Record MatchState : Type := mkState {
  rest : JSString;                    (* the input from endIndex on *)
  caps : list (nat * JSString)        (* captures, most recent first *)
}.

Section Matcher.

Variable ignoreCase : bool.

Definition sameChar (c a : N) : bool :=
  if ignoreCase then canonicalize c =? canonicalize a else c =? a.

Definition cmatch (cl : CharClass) (c : N) : bool :=
  match cl with
  | CChar a => sameChar c a
  | CNot a => negb (sameChar c a)
  | CSpace => isWhiteSpace c
  | CDot => negb (isLineTerminator c)
  end.

(** RepeatMatcher for a character class with min 0 and no max: the greedy
    form tries one more character before the continuation, the lazy form
    tries the continuation first. *)
Fixpoint starM (greedy : bool) (cl : CharClass) (cs : list (nat * JSString))
    (k : MatchState -> option MatchState) (s : JSString) {struct s}
    : option MatchState :=
  if greedy then
    match s with
    | c :: s' =>
        if cmatch cl c then
          match starM greedy cl cs k s' with
          | Some z => Some z
          | None => k (mkState s cs)
          end
        else k (mkState s cs)
    | [] => k (mkState s cs)
    end
  else
    match k (mkState s cs) with
    | Some z => Some z
    | None =>
        match s with
        | c :: s' => if cmatch cl c then starM greedy cl cs k s' else None
        | [] => None
        end
    end.

(** The matcher of [r] from state [x] with continuation [k]. *)
Fixpoint matcher (r : regex) (x : MatchState)
    (k : MatchState -> option MatchState) : option MatchState :=
  match r with
  | Eps => k x
  | Chr cl =>
      match rest x with
      | c :: s' => if cmatch cl c then k (mkState s' (caps x)) else None
      | [] => None
      end
  | Cat r1 r2 => matcher r1 x (fun y => matcher r2 y k)
  | Star greedy cl => starM greedy cl (caps x) k (rest x)
  | Opt r1 =>
      match matcher r1 x (fun y =>
              if (length (rest y) =? length (rest x))%nat then None
              else k y) with
      | Some z => Some z
      | None => k x
      end
  | Grp n r1 =>
      matcher r1 x (fun y =>
        k (mkState (rest y)
             ((n, take (length (rest x) - length (rest y)) (rest x))
                :: caps y)))
  end.

End Matcher.

(** A match: the matched substring and the captures. *)
Record Match : Type := mkMatch {
  matched : JSString;
  groups : list (nat * JSString)
}.

(** The n-th capture, undefined when the group took no part. *)
Fixpoint capture (n : nat) (gs : list (nat * JSString)) : option JSString :=
  match gs with
  | [] => None
  | (i, v) :: gs' => if (i =? n)%nat then Some v else capture n gs'
  end.

(** A match attempt at the start of [s]. *)
Definition matchAt (ignoreCase : bool) (r : regex) (s : JSString)
    : option Match :=
  match matcher ignoreCase r (mkState s []) Some with
  | Some y => Some (mkMatch (take (length s - length (rest y)) s) (caps y))
  | None => None
  end.

(** What a global scan makes of the input: the matches, leftmost first and
    not overlapping, and the code units between them. *)
Inductive Segment : Type :=
| Text (c : N)
| Hit (mt : Match).

(** The scan of a regular expression with the [g] flag: at each index not
    inside the previous match the matcher is tried; after a match the scan
    resumes at its end (one further after an empty match). [skip] counts
    the code units still covered by the previous match. *)
Fixpoint scanFrom (ignoreCase : bool) (r : regex) (skip : nat)
    (s : JSString) {struct s} : list Segment :=
  match skip with
  | S k =>
      match s with
      | [] => []
      | _ :: s' => scanFrom ignoreCase r k s'
      end
  | O =>
      match matchAt ignoreCase r s with
      | Some mt =>
          Hit mt ::
            match s with
            | [] => []
            | c :: s' =>
                match length (matched mt) with
                | O => Text c :: scanFrom ignoreCase r 0 s'
                | S k => scanFrom ignoreCase r k s'
                end
            end
      | None =>
          match s with
          | [] => []
          | c :: s' => Text c :: scanFrom ignoreCase r 0 s'
          end
      end
  end.

Definition scan (ignoreCase : bool) (r : regex) (s : JSString)
    : list Segment :=
  scanFrom ignoreCase r 0 s.

(** The piece of the input a segment stands for. *)
Definition source (sg : Segment) : JSString :=
  match sg with
  | Text c => [c]
  | Hit mt => matched mt
  end.

(** The output of [replace] with a callback: text is copied, each match is
    replaced by what the callback returns; the callbacks run in order and
    the first exception ends the call. *)
Fixpoint renderAll (f : Match -> Result JSString) (sgs : list Segment)
    : Result JSString :=
  match sgs with
  | [] => Ok []
  | Text c :: tl => let! r := renderAll f tl in Ok (c :: r)
  | Hit mt :: tl =>
      let! p := f mt in
      let! r := renderAll f tl in
      Ok (p ++ r)
  end.

(** [s.replace(/r/g, f)] *)
Definition replace (ignoreCase : bool) (r : regex)
    (f : Match -> Result JSString) (s : JSString) : Result JSString :=
  renderAll f (scan ignoreCase r s).

End Regex.

(** ** The link rewriter *)

Module Rewriter.
Import Regex.

Definition gt : N := 62.   (* ">" *)

(** The pattern of [linkRegex], flags [g] and [i], piece by piece (Q is
    the double quote):
    - [<a] then [\s+];
    - optionally, and preferring to take it, a lazy run of [[^>]] followed
      by [\s+] (a group that captures nothing);
    - [href=Q];
    - group 1, a greedy run of [[^Q]], then [Q];
    - group 2, a greedy run of [[^>]], then [>];
    - group 3, a lazy run of [.];
    - [</a>]. *)
Definition linkRegex : regex :=
  seq [ str (lit "<a"); plus CSpace;
        Opt (seq [Star false (CNot gt); plus CSpace]);
        str (lit "href=" ++ [dquote]);
        Grp 1 (Star true (CNot dquote));
        Chr (CChar dquote);
        Grp 2 (Star true (CNot gt));
        Chr (CChar gt);
        Grp 3 (Star false CDot);
        str (lit "</a>") ].

(** A capture inside a template literal: undefined prints as
    "undefined". *)
Definition shown (v : option JSString) : JSString :=
  match v with
  | Some s => s
  | None => lit "undefined"
  end.

(** [url.startsWith("mailto:") || url.startsWith("#")] *)
Definition excluded (url : JSString) : bool :=
  startsWith url (lit "mailto:") || startsWith url (lit "#").

Section WithBase.

(** [BASE_URL], read from the environment when the process starts. *)
Variable BASE_URL : JSString.

(** The rewritten anchor for an href whose encoding is [encodedUrl]. *)
Definition trackingUrl (trackingId encodedUrl : JSString) : JSString :=
  BASE_URL ++ lit "/api/click?id=" ++ trackingId ++ lit "&url=" ++ encodedUrl.

Definition rewrittenAnchor (trackingId encodedUrl attributes content : JSString)
    : JSString :=
  lit "<a href=" ++ [dquote] ++ trackingUrl trackingId encodedUrl ++ [dquote]
  ++ attributes ++ lit ">" ++ content ++ lit "</a>".

(** The callback [(match, url, attributes, content) => ...]. *)
Definition rewriteMatch (trackingId : JSString) (mt : Match)
    : Result JSString :=
  match capture 1 (groups mt) with
  | None => Throw TypeError
  | Some url =>
      if excluded url then Ok (matched mt)
      else
        let! encodedUrl := URI.encodeURIComponent url in
        Ok (rewrittenAnchor trackingId encodedUrl
              (shown (capture 2 (groups mt)))
              (shown (capture 3 (groups mt))))
  end.

Definition rewriteLinksForTracking (htmlBody trackingId : JSString)
    : Result JSString :=
  replace true linkRegex (rewriteMatch trackingId) htmlBody.

End WithBase.

End Rewriter.

(** ** The record store and the request handlers *)

Module Tracker.

Inductive Status : Type := SENT | OPENED.
Inductive Method : Type := PIXEL | CLICK.

(** A document of [trackingSchema]. Dates are milliseconds since the
    epoch; [null] is [None]. [openCount] is a JavaScript number, exact on
    the integers a counter reaches by steps of one below 2^53. *)
Record Tracking : Type := mkTracking {
  trackingId : JSString;
  to : JSString;
  subject : JSString;
  body : JSString;
  role : JSString;
  company : JSString;
  status : Status;
  method : option Method;
  sentAt : Z;
  openedAt : option Z;
  ipAddress : option JSString;
  userAgent : option JSString;
  openCount : Z
}.

(** The collection, keyed by [trackingId] (which the schema declares
    unique). *)
Abbreviation Store := (gmap (list N) Tracking).

(** The object passed to [Tracking.updateOne]: the keys that are present.
    A key whose value is undefined is dropped from the update. *)
Record UpdateData : Type := mkUpdate {
  u_openedAt : option Z;
  u_method : option Method;
  u_openCount : option Z;
  u_ipAddress : option JSString;
  u_userAgent : option JSString;
  u_status : option Status
}.

Definition setIf {A} (new : option A) (old : A) : A :=
  match new with
  | Some v => v
  | None => old
  end.

(** The effect of an update on the document it matches. *)
Definition applyUpdate (u : UpdateData) (r : Tracking) : Tracking :=
  {| trackingId := trackingId r;
     to := to r;
     subject := subject r;
     body := body r;
     role := role r;
     company := company r;
     status := setIf (u_status u) (status r);
     method := match u_method u with Some m => Some m | None => method r end;
     sentAt := sentAt r;
     openedAt := match u_openedAt u with Some d => Some d | None => openedAt r end;
     ipAddress := match u_ipAddress u with Some a => Some a | None => ipAddress r end;
     userAgent := match u_userAgent u with Some a => Some a | None => userAgent r end;
     openCount := setIf (u_openCount u) (openCount r) |}.

(** What a handler reads besides the store: the clock, whether the store
    rejects the lookup, the update or the insertion of this request, and
    the mailer, which returns a message identifier or throws. *)
Record Env : Type := mkEnv {
  now : Z;
  findOneThrows : bool;
  updateOneThrows : bool;
  createThrows : bool;
  sendMail : JSString -> JSString -> JSString -> Result JSString
}.

(** Handlers run in a state and exception monad over the store. *)
Definition M (A : Type) : Type := Store -> Store * Result A.

Definition ret {A} (a : A) : M A := fun st => (st, Ok a).

Definition bind {A B} (c : M A) (f : A -> M B) : M B :=
  fun st =>
    match c st with
    | (st', Ok a) => f a st'
    | (st', Throw e) => (st', Throw e)
    end.

Definition liftR {A} (r : Result A) : M A := fun st => (st, r).

(** [try { c } catch (error) { h error }] *)
Definition tryCatch {A} (c : M A) (h : JSError -> M A) : M A :=
  fun st =>
    match c st with
    | (st', Ok a) => (st', Ok a)
    | (st', Throw e) => h e st'
    end.

Notation "'let*' x ':=' c 'in' k" := (bind c (fun x => k))
  (at level 10, x name, c at level 100, k at level 200).

(** [Tracking.findOne({ trackingId: id })]; a rejected call leaves the
    store as it was. *)
Definition findOne (env : Env) (id : JSString) : M (option Tracking) :=
  fun st =>
    if findOneThrows env then (st, Throw StoreError)
    else (st, Ok (st !! id)).

(** [Tracking.updateOne({ trackingId: id }, updateData)] *)
Definition updateOne (env : Env) (id : JSString) (u : UpdateData) : M unit :=
  fun st =>
    if updateOneThrows env then (st, Throw StoreError)
    else (alter (applyUpdate u) id st, Ok tt).

(** [Tracking.create(doc)]; the unique index rejects a second document
    with the same [trackingId]. *)
Definition create (env : Env) (doc : Tracking) : M unit :=
  fun st =>
    if createThrows env then (st, Throw StoreError)
    else
      match st !! trackingId doc with
      | Some _ => (st, Throw DuplicateKey)
      | None => (<[trackingId doc := doc]> st, Ok tt)
      end.

(** What the requester's side of a request carries. *)
Record Req : Type := mkReq {
  ip : option JSString;
  xForwardedFor : option JSString;
  remoteAddress : option JSString;
  userAgentHeader : option JSString
}.

(** [req.ip || req.headers['x-forwarded-for'] || req.connection.remoteAddress] *)
Definition requesterAddress (rq : Req) : option JSString :=
  orElse (orElse (ip rq) (xForwardedFor rq)) (remoteAddress rq).

Inductive HeaderValue : Type :=
| HText (s : JSString)
| HNumber (n : nat).

Inductive Body : Type :=
| BText (s : JSString)
| BError (error : JSString) (details : option JSError)
| BSent (messageId trackingId : JSString)
| BBytes (bytes : list N).

Inductive Response : Type :=
| Send (code : Z) (headers : list (JSString * HeaderValue)) (b : Body)
| Redirect (target : JSString)    (* res.redirect(target) *)
| Uncaught (e : JSError).         (* the exception left the handler *)

(** *** Base64, for the pixel *)

Definition sextet (c : N) : option N :=
  if (65 <=? c) && (c <=? 90) then Some (c - 65)
  else if (97 <=? c) && (c <=? 122) then Some (c - 71)
  else if (48 <=? c) && (c <=? 57) then Some (c + 4)
  else if c =? 43 then Some 62
  else if c =? 47 then Some 63
  else None.

(** The sextets up to the padding. *)
Fixpoint sextets (s : JSString) : list N :=
  match s with
  | [] => []
  | c :: s' =>
      match sextet c with
      | Some v => v :: sextets s'
      | None => []
      end
  end.

Fixpoint octets (l : list N) : list N :=
  match l with
  | a :: b :: c :: d :: tl =>
      (4 * a + b / 16) :: (16 * (b mod 16) + c / 4) :: (64 * (c mod 4) + d)
        :: octets tl
  | [a; b; c] => [4 * a + b / 16; 16 * (b mod 16) + c / 4]
  | [a; b] => [4 * a + b / 16]
  | _ => []
  end.

(** [Buffer.from(s, "base64")] on a string of the base64 alphabet followed
    by padding. *)
Definition bufferFromBase64 (s : JSString) : list N := octets (sextets s).

Definition png : list N :=
  bufferFromBase64
    (lit "iVBORw0KGgoAAAANSUhEUgAAAAEAAAABCAQAAAC1HAwCAAAAC0lEQVR42mNkYAAAAAYAAjCB0C8AAAAASUVORK5CYII=").

(** [res.writeHead(200, {...}); res.end(png)] *)
Definition pixelResponse : Response :=
  Send 200
    [ (lit "Content-Type", HText (lit "image/png"));
      (lit "Content-Length", HNumber (length png));
      (lit "Cache-Control",
         HText (lit "no-store, no-cache, must-revalidate, max-age=0"));
      (lit "Pragma", HText (lit "no-cache"));
      (lit "Expires", HText (lit "0")) ]
    (BBytes png).

(** *** GET /api/click *)

Definition strOf (v : option JSString) : JSString := default [] v.

(** The [updateData] of the click handler for the document [tracking]. *)
Definition clickUpdate (env : Env) (rq : Req) (tracking : Tracking)
    : UpdateData :=
  {| u_openedAt := Some (match openedAt tracking with
                         | Some d => d
                         | None => now env
                         end);
     u_method := Some (match method tracking with
                       | Some m => m
                       | None => CLICK
                       end);
     u_openCount := Some (openCount tracking + 1)%Z;
     u_ipAddress := requesterAddress rq;
     u_userAgent := userAgentHeader rq;
     u_status := match status tracking with
                 | OPENED => None
                 | SENT => Some OPENED
                 end |}.

Definition clickHandler (env : Env) (id url : option JSString) (rq : Req)
    : M Response :=
  if negb (truthy id) || negb (truthy url) then
    ret (Send 400 [] (BText (lit "Missing parameters")))
  else
    tryCatch
      (let* tracking := findOne env (strOf id) in
       let* _ := match tracking with
                 | Some tr => updateOne env (strOf id) (clickUpdate env rq tr)
                 | None => ret tt
                 end in
       let* target := liftR (URI.decodeURIComponent (strOf url)) in
       ret (Redirect target))
      (fun _ =>
         let* target := liftR (URI.decodeURIComponent (strOf url)) in
         ret (Redirect target)).

(** *** GET /api/pixel/:id *)

(** The [updateData] of the pixel handler for the document [tracking]. *)
Definition pixelUpdate (env : Env) (rq : Req) (tracking : Tracking)
    : UpdateData :=
  match status tracking with
  | OPENED =>
      {| u_openedAt := None;
         u_method := None;
         u_openCount := Some (openCount tracking + 1)%Z;
         u_ipAddress := requesterAddress rq;
         u_userAgent := userAgentHeader rq;
         u_status := None |}
  | SENT =>
      {| u_openedAt := Some (now env);
         u_method := Some PIXEL;
         u_openCount := Some (openCount tracking + 1)%Z;
         u_ipAddress := requesterAddress rq;
         u_userAgent := userAgentHeader rq;
         u_status := Some OPENED |}
  end.

Definition pixelHandler (env : Env) (id : JSString) (rq : Req) : M Response :=
  let* _ := tryCatch
              (let* tracking := findOne env id in
               match tracking with
               | Some tr => updateOne env id (pixelUpdate env rq tr)
               | None => ret tt
               end)
              (fun _ => ret tt) in
  ret pixelResponse.

(** *** POST /api/send-email *)

Record SendBody : Type := mkSendBody {
  b_to : option JSString;
  b_subject : option JSString;
  b_body : option JSString;
  b_trackingId : option JSString;
  b_role : option JSString;
  b_company : option JSString
}.

(** [x || "fallback"] *)
Definition orDefault (v : option JSString) (d : JSString) : JSString :=
  if truthy v then strOf v else d.

(** The document of [Tracking.create]. *)
Definition newTracking (env : Env) (b : SendBody) : Tracking :=
  {| trackingId := strOf (b_trackingId b);
     to := strOf (b_to b);
     subject := orDefault (b_subject b) (lit "Application");
     body := strOf (b_body b);
     role := orDefault (b_role b) (lit "Position");
     company := orDefault (b_company b) (lit "Company");
     status := SENT;
     method := None;
     sentAt := now env;
     openedAt := None;
     ipAddress := None;
     userAgent := None;
     openCount := 0 |}.

(** [body.replace(/\n/g, "<br/>")] *)
Definition breakLines (s : JSString) : JSString :=
  concat (map (fun c => if c =? 10 then lit "<br/>" else [c]) s).

Section WithBase.

Variable BASE_URL : JSString.

(** The HTML of the message: the body with its line breaks and links
    rewritten, the footer and the pixel. *)
Definition composeHtml (b : SendBody) : Result JSString :=
  let trackingId := strOf (b_trackingId b) in
  let pixelUrl := BASE_URL ++ lit "/api/pixel/" ++ trackingId in
  let! processedBody :=
    Rewriter.rewriteLinksForTracking BASE_URL
      (breakLines (strOf (b_body b))) trackingId in
  Ok (jsq "
      <div style=`font-family: Helvetica, Arial, sans-serif; color: #333; line-height: 1.6;`>
        " ++ processedBody ++ jsq "
        <br/><br/>
        <div style=`margin-top: 30px; border-top: 1px solid #eaeaea; padding-top: 20px;`>
          <p style=`font-size: 12px; color: #999;`>
            Application for <strong>" ++ orDefault (b_role b) (lit "Position")
      ++ lit "</strong> at <strong>"
      ++ orDefault (b_company b) (lit "Company") ++ jsq "</strong>
          </p>
        </div>
        <img src=`" ++ pixelUrl ++ jsq "` width=`1` height=`1` alt=`` style=`display:block; opacity:0;` />
      </div>
    ").

Definition sendHandler (env : Env) (b : SendBody) : M Response :=
  if negb (truthy (b_to b)) || negb (truthy (b_body b))
     || negb (truthy (b_trackingId b)) then
    ret (Send 400 [] (BError (lit "Missing required fields") None))
  else
    tryCatch
      (let* _ := create env (newTracking env b) in
       let* htmlBody := liftR (composeHtml b) in
       let* messageId :=
         liftR (sendMail env (strOf (b_to b))
                  (orDefault (b_subject b) (lit "Application")) htmlBody) in
       ret (Send 200 [] (BSent messageId (strOf (b_trackingId b)))))
      (fun error =>
         ret (Send 500 [] (BError (lit "Failed to send email") (Some error)))).

(** *** Requests *)

Inductive Request : Type :=
| PostSendEmail (b : SendBody)
| GetClick (id url : option JSString) (rq : Req)
| GetPixel (id : JSString) (rq : Req).

Definition handler (env : Env) (q : Request) : M Response :=
  match q with
  | PostSendEmail b => sendHandler env b
  | GetClick id url rq => clickHandler env id url rq
  | GetPixel id rq => pixelHandler env id rq
  end.

(** A request served to completion: the store it leaves and the
    response. *)
Definition handle (env : Env) (q : Request) (st : Store) : Store * Response :=
  match handler env q st with
  | (st', Ok resp) => (st', resp)
  | (st', Throw e) => (st', Uncaught e)
  end.

(** Requests served one after the other. *)
Definition step (st : Store) (op : Env * Request) : Store :=
  fst (handle (fst op) (snd op) st).

Definition run (ops : list (Env * Request)) (st : Store) : Store :=
  foldl step st ops.

(** The stores the server can reach from the empty collection. *)
Inductive reachable : Store -> Prop :=
| reach_empty : reachable ∅
| reach_step st op : reachable st -> reachable (step st op).

End WithBase.

(** A record as [Tracking.create] leaves it. *)
Definition fresh (r : Tracking) : Prop :=
  status r = SENT /\ method r = None /\ openedAt r = None /\ openCount r = 0%Z.

(** An engagement event on the record [t]: a pixel fetch or a click (with
    both parameters) for [t] whose lookup and update the store accepts. *)
Definition engages (t : JSString) (op : Env * Request) : bool :=
  negb (findOneThrows (fst op)) && negb (updateOneThrows (fst op)) &&
  match snd op with
  | GetPixel id _ => bool_decide (id = t)
  | GetClick id url _ =>
      truthy id && truthy url && bool_decide (strOf id = t)
  | PostSendEmail _ => false
  end.

(** The channel of an engagement event. *)
Definition channel (op : Env * Request) : Method :=
  match snd op with
  | GetPixel _ _ => PIXEL
  | _ => CLICK
  end.

(** [status == OPENED] iff [openedAt != null] iff [method != null]. *)
Definition coherent (r : Tracking) : Prop :=
  (status r = OPENED <-> openedAt r <> None)
  /\ (openedAt r <> None <-> method r <> None).

End Tracker.

(** ** Notions used to state the properties *)

Module Shape.
Import Regex.

(** [denotes ic r w cs cs']: the word [w] is matched by [r], which turns
    the captures [cs] into [cs']. *)
Fixpoint denotes (ic : bool) (r : regex) (w : JSString)
    (cs cs' : list (nat * JSString)) : Prop :=
  match r with
  | Eps => w = [] /\ cs' = cs
  | Chr cl => exists c, w = [c] /\ cmatch ic cl c = true /\ cs' = cs
  | Cat r1 r2 =>
      exists w1 w2 cs1,
        w = w1 ++ w2 /\ denotes ic r1 w1 cs cs1 /\ denotes ic r2 w2 cs1 cs'
  | Star _ cl => Forall (fun c => cmatch ic cl c = true) w /\ cs' = cs
  | Opt r1 => (w = [] /\ cs' = cs) \/ denotes ic r1 w cs cs'
  | Grp n r1 => exists cs1, denotes ic r1 w cs cs1 /\ cs' = (n, w) :: cs1
  end.

(** [w] spells the ASCII pattern [p] up to the case of letters. *)
Definition spells (w p : JSString) : Prop :=
  Forall2 (fun c a => sameChar true c a = true) w p.

(** [s] starts with the pattern [p], up to the case of letters. *)
Fixpoint ciPrefix (p s : JSString) : bool :=
  match p, s with
  | [], _ => true
  | _ :: _, [] => false
  | a :: p', c :: s' => sameChar true c a && ciPrefix p' s'
  end.

(** The text [href=Q], Q the double quote. *)
Definition hrefOpen : JSString := lit "href=" ++ [dquote].

(** A white-space character followed by [href=Q] starts [s]. *)
Definition quotedHrefAt (s : JSString) : bool :=
  match s with
  | c :: s' => isWhiteSpace c && ciPrefix hrefOpen s'
  | [] => false
  end.

(** [s] contains, somewhere, a white-space character followed by
    [href=Q]. *)
Fixpoint hasQuotedHref (s : JSString) : bool :=
  quotedHrefAt s ||
  match s with
  | [] => false
  | _ :: s' => hasQuotedHref s'
  end.

(** The code units of [s] before its first ">". *)
Fixpoint tagText (s : JSString) : JSString :=
  match s with
  | [] => []
  | c :: s' => if c =? Rewriter.gt then [] else c :: tagText s'
  end.

(** [s] starts with a white-space character. *)
Definition startsWhite (s : JSString) : bool :=
  match s with
  | c :: _ => isWhiteSpace c
  | [] => false
  end.

(** [s] starts with a tag that opens a double-quoted href for the
    pattern: [<a] (in any letter case), a white-space character and,
    before the first ">", a white-space character followed by
    [href=Q]. *)
Definition opensQuotedHref (s : JSString) : bool :=
  ciPrefix (lit "<a") s && startsWhite (drop 2 s)
  && hasQuotedHref (tagText (drop 2 s)).

(** Such a tag starts somewhere in [s]. *)
Fixpoint opensQuotedHrefIn (s : JSString) : bool :=
  opensQuotedHref s ||
  match s with
  | [] => false
  | _ :: s' => opensQuotedHrefIn s'
  end.

(** The anatomy of a match of [linkRegex]: the tag name, white space, what
    the optional group took ([lead]: empty, or characters other than ">"
    ending in white space), [href=Q], the href up to the next double
    quote, the attributes up to the next ">", the content without line
    terminators and the closing tag; the three groups hold the href, the
    attributes and the content. *)
Definition Anchor (mt : Match) (lead url attributes content : JSString)
    : Prop :=
  exists tag sp ho close,
    matched mt = tag ++ sp ++ lead ++ ho ++ url ++ [dquote] ++ attributes
                 ++ [Rewriter.gt] ++ content ++ close
    /\ spells tag (lit "<a")
    /\ sp <> [] /\ Forall (fun c => isWhiteSpace c = true) sp
    /\ (lead = [] \/
        exists a b, lead = a ++ b /\ Forall (fun c => c <> Rewriter.gt) a
                    /\ b <> [] /\ Forall (fun c => isWhiteSpace c = true) b)
    /\ spells ho hrefOpen
    /\ Forall (fun c => c <> dquote) url
    /\ Forall (fun c => c <> Rewriter.gt) attributes
    /\ Forall (fun c => isLineTerminator c = false) content
    /\ spells close (lit "</a>")
    /\ groups mt = [(3%nat, content); (2%nat, attributes); (1%nat, url)].

(** [s.includes(sub)] *)
Fixpoint includes (s sub : JSString) : bool :=
  startsWith s sub ||
  match s with
  | [] => false
  | _ :: s' => includes s' sub
  end.

End Shape.

Module Engagement.
Import Tracker.

(** What an engagement event makes of the record it finds. *)
Definition engage (op : Env * Request) (r : Tracking) : Tracking :=
  match snd op with
  | GetPixel _ rq => applyUpdate (pixelUpdate (fst op) rq r) r
  | GetClick _ _ rq => applyUpdate (clickUpdate (fst op) rq r) r
  | PostSendEmail _ => r
  end.

(** The record a request finds, after the request. *)
Definition after (t : JSString) (r : Tracking) (op : Env * Request)
    : Tracking :=
  if engages t op then engage op r else r.

(** A send request that reaches [Tracking.create] and is not rejected by
    the store for a reason other than a duplicate key. *)
Definition creates (t : JSString) (op : Env * Request) : bool :=
  match snd op with
  | PostSendEmail b =>
      truthy (b_to b) && truthy (b_body b) && truthy (b_trackingId b)
      && negb (createThrows (fst op))
      && bool_decide (strOf (b_trackingId b) = t)
  | _ => false
  end.

(** A record that has been opened at [d] through channel [m]: the three
    fields are set. *)
Definition openedWith (d : Z) (m : Method) (r : Tracking) : Prop :=
  status r = OPENED /\ openedAt r = Some d /\ method r = Some m.

(** The number of engagement events on [t] among [ops]. *)
Definition engagements (t : JSString) (ops : list (Env * Request)) : nat :=
  length (filter (fun op => engages t op = true) ops).

End Engagement.

Module Ranges.

(** [forallRange f bits lo]: [f] holds of the 2^bits numbers from [lo]
    on. *)
Fixpoint forallRange (f : N -> bool) (bits : nat) (lo : N) : bool :=
  match bits with
  | O => f lo
  | S b => forallRange f b lo && forallRange f b (lo + 2 ^ N.of_nat b)
  end.

Definition isSurrogate (cp : N) : bool := (0xD800 <=? cp) && (cp <=? 0xDFFF).

(** For a code point of the basic plane that is no surrogate, the octets
    of [utf8] are below 256 and are decoded to the code point. *)
Definition bmpDecodes (cp : N) : bool :=
  if (cp <? 0x10000) && negb (isSurrogate cp) then
    forallb (fun b => b <? 256) (URI.utf8 cp)
    && match URI.decodeItems (map URI.Octet (URI.utf8 cp)) with
       | Ok r => bool_decide (r = [cp])
       | Throw _ => false
       end
  else true.

(** The bits of a continuation octet and of the first octet of four. *)
Definition contOctet (x : N) : bool :=
  if x <? 64 then
    (N.lor 0x80 x =? 128 + x) && (URI.contBits (N.lor 0x80 x) =? x)
    && URI.isCont (N.lor 0x80 x)
  else true.

Definition leadOctet4 (x : N) : bool :=
  if x <? 8 then
    (N.lor 0xF0 x =? 240 + x) && (N.land (N.lor 0xF0 x) 0x07 =? x)
  else true.

(** The escape of an octet is read back as that octet. *)
Definition octetUnescapes (b : N) : bool :=
  if b <? 256 then
    match URI.unescapeItems (URI.escapeOctet b) with
    | Ok [URI.Octet b'] => b' =? b
    | _ => false
    end
  else true.

End Ranges.

Module Lifecycle.
Import Tracker Engagement.

(** The record a request leaves under [t] when it found none. *)
Definition created (t : JSString) (op : Env * Request) : option Tracking :=
  match snd op with
  | PostSendEmail b =>
      if creates t op then Some (newTracking (fst op) b) else None
  | _ => None
  end.

(** A request whose url parameter [decodeURIComponent] accepts. *)
Definition decodes (url d : JSString) : Prop :=
  URI.decodeURIComponent url = Ok d.

End Lifecycle.

(** ** Sample data *)

Module Sample.
Import Tracker.

(** The default [BASE_URL], with PORT 4000. *)
Definition localhost : JSString := lit "http://localhost:4000".

Definition abc123 : JSString := lit "abc123".

Definition browser : Req :=
  {| ip := Some (lit "203.0.113.7");
     xForwardedFor := None;
     remoteAddress := Some (lit "203.0.113.7");
     userAgentHeader := Some (lit "Mozilla/5.0") |}.

(** A mailer that accepts every message. *)
Definition mailer (to subject html : JSString) : Result JSString :=
  Ok (lit "<message-1@mail>").

(** An instant at which the store and the mailer work. *)
Definition at_ (time : Z) : Env :=
  {| now := time;
     findOneThrows := false;
     updateOneThrows := false;
     createThrows := false;
     sendMail := mailer |}.

(** The send request of the scenario: a body with one link. *)
Definition hello : SendBody :=
  {| b_to := Some (lit "hr@example.com");
     b_subject := None;
     b_body := Some (jsq "Hi
<a href=`https://x.com`>link</a>");
     b_trackingId := Some abc123;
     b_role := None;
     b_company := None |}.

Definition sendHello : Env * Request := (at_ 1000, PostSendEmail hello).

Definition pixelAt (time : Z) : Env * Request :=
  (at_ time, GetPixel abc123 browser).

Definition clickAt (time : Z) : Env * Request :=
  (at_ time, GetClick (Some abc123) (Some (lit "https://x.com")) browser).

(** The record of the scenario after the pixel fetch at 2000. *)
Definition openedByPixel : Tracking :=
  {| trackingId := abc123;
     to := lit "hr@example.com";
     subject := lit "Application";
     body := jsq "Hi
<a href=`https://x.com`>link</a>";
     role := lit "Position";
     company := lit "Company";
     status := OPENED;
     method := Some PIXEL;
     sentAt := 1000;
     openedAt := Some 2000%Z;
     ipAddress := Some (lit "203.0.113.7");
     userAgent := Some (lit "Mozilla/5.0");
     openCount := 1 |}.

(** A collection that holds this record only. *)
Definition oneRecord : gmap (list N) Tracking :=
  {[ abc123 := openedByPixel ]}.

(** An instant at which the store rejects every lookup. *)
Definition storeDownAt (time : Z) : Env :=
  {| now := time;
     findOneThrows := true;
     updateOneThrows := false;
     createThrows := false;
     sendMail := mailer |}.

(** Requests that are no engagement on abc123: a pixel fetch for another
    identifier, a pixel fetch while the store is down, a click without
    its url, and a second send with the same identifier. *)
Definition idleRequests : list (Env * Request) :=
  [ (at_ 1100, GetPixel (lit "zzz") browser);
    (storeDownAt 1200, GetPixel abc123 browser);
    (at_ 1300, GetClick (Some abc123) None browser);
    (at_ 1400, PostSendEmail hello) ].

(** A fragment with an excluded anchor and an anchor to rewrite. *)
Definition twoLinks : JSString :=
  jsq "Write <a href=`mailto:x@y.com`>me</a> or <a href=`https://x.com` rel=`nofollow`>link</a>".

Definition mailtoMatch : Regex.Match :=
  Regex.mkMatch (jsq "<a href=`mailto:x@y.com`>me</a>")
    [(3%nat, lit "me"); (2%nat, []); (1%nat, lit "mailto:x@y.com")].

Definition linkMatch : Regex.Match :=
  Regex.mkMatch (jsq "<a href=`https://x.com` rel=`nofollow`>link</a>")
    [(3%nat, lit "link"); (2%nat, jsq " rel=`nofollow`");
     (1%nat, lit "https://x.com")].

Definition beforeMailto : list Regex.Segment := map Regex.Text (lit "Write ").

Definition afterMailto : list Regex.Segment :=
  map Regex.Text (lit " or ") ++ [Regex.Hit linkMatch].

Definition beforeLink : list Regex.Segment :=
  beforeMailto ++ Regex.Hit mailtoMatch :: map Regex.Text (lit " or ").

(** An anchor with a single-quoted href between two ordinary links. *)
Definition quotedBefore : JSString := jsq "<a href=`https://y.com`>y</a> ".

Definition singleQuoted : JSString := lit "<a href='https://x.com'>link</a>".

Definition quotedAfter : JSString := jsq " <a href=`https://z.com`>z</a>".

Definition beforeSingleQuoted : list Regex.Segment :=
  [Regex.Hit (Regex.mkMatch (jsq "<a href=`https://y.com`>y</a>")
                [(3%nat, lit "y"); (2%nat, []); (1%nat, lit "https://y.com")]);
   Regex.Text 32].

End Sample.

(** ** The read endpoints *)

Module Reader.
Import Tracker.

Inductive ReadResponse : Type :=
| RecordJson (record : Tracking)             (* res.json(record) *)
| RecordsJson (records : list Tracking)      (* res.json(records) *)
| ReadError (code : Z) (error : JSString)    (* res.status(code).json({ error }) *)
| ReadUncaught (e : JSError).                (* the exception left the handler *)

(** GET /api/tracking/:id *)
Definition trackingHandler (env : Env) (id : JSString) : M ReadResponse :=
  tryCatch
    (let* record := findOne env id in
     match record with
     | None => ret (ReadError 404 (lit "Tracking record not found"))
     | Some r => ret (RecordJson r)
     end)
    (fun _ => ret (ReadError 500 (lit "Failed to fetch tracking record"))).

(** [Tracking.find()]: the documents of the collection, in the order the
    store keeps them; a rejected call leaves the store as it was. *)
Definition find (findThrows : bool) : M (list Tracking) :=
  fun st =>
    if findThrows then (st, Throw StoreError)
    else (st, Ok (snd <$> map_to_list st)).

(** [.sort({ sentAt: -1 })]: the documents by descending [sentAt];
    documents with the same [sentAt] stay in the order of the store. *)
Fixpoint insertBySentAt (r : Tracking) (l : list Tracking) : list Tracking :=
  match l with
  | [] => [r]
  | x :: l' =>
      if (sentAt x <=? sentAt r)%Z then r :: x :: l'
      else x :: insertBySentAt r l'
  end.

Definition sortBySentAtDesc (l : list Tracking) : list Tracking :=
  foldr insertBySentAt [] l.

(** GET /api/tracking-status *)
Definition statusHandler (findThrows : bool) : M ReadResponse :=
  tryCatch
    (let* found := find findThrows in
     ret (RecordsJson (sortBySentAtDesc found)))
    (fun _ => ret (ReadError 500 (lit "Failed to fetch tracking data"))).

(** A read request served to completion. *)
Definition serve (h : M ReadResponse) (st : Store) : Store * ReadResponse :=
  match h st with
  | (st', Ok resp) => (st', resp)
  | (st', Throw e) => (st', ReadUncaught e)
  end.

(** Newest first: no document is followed by one sent later. *)
Fixpoint newestFirst (l : list Tracking) : Prop :=
  match l with
  | [] => True
  | x :: l' => Forall (fun y => (sentAt y <= sentAt x)%Z) l' /\ newestFirst l'
  end.

End Reader.

Module Coverage.
Import Tracker.

(** The send request lacks one of [to], [body], [trackingId]. *)
Definition incomplete (b : SendBody) : bool :=
  negb (truthy (b_to b)) || negb (truthy (b_body b))
  || negb (truthy (b_trackingId b)).

(** The requester of an engagement request. *)
Definition requester (op : Env * Request) : option Req :=
  match snd op with
  | GetPixel _ rq => Some rq
  | GetClick _ _ rq => Some rq
  | PostSendEmail _ => None
  end.

(** The fields of a record that describe the message. *)
Definition sameMessage (r r' : Tracking) : Prop :=
  trackingId r' = trackingId r /\ to r' = to r /\ subject r' = subject r
  /\ body r' = body r /\ role r' = role r /\ company r' = company r
  /\ sentAt r' = sentAt r.

(** The trackingId a request names. *)
Definition target (op : Env * Request) : JSString :=
  match snd op with
  | PostSendEmail b => strOf (b_trackingId b)
  | GetClick id _ _ => strOf id
  | GetPixel id _ => id
  end.

(** Every match among the segments has an href that is excluded. *)
Definition allExcluded (sgs : list Regex.Segment) : bool :=
  forallb (fun sg =>
             match sg with
             | Regex.Text _ => true
             | Regex.Hit mt =>
                 match Regex.capture 1 (Regex.groups mt) with
                 | Some url => Rewriter.excluded url
                 | None => true
                 end
             end) sgs.

(** The code units [encodeURIComponent] never leaves in its result: the
    double quote, "&", "<", ">", "#", "=" and the space. *)
Definition delimiters : JSString := [dquote; 38; 60; 62; 35; 61; 32].

End Coverage.

Module Sample2.
Import Tracker Sample.

(** A second message, sent later. *)
Definition later : Tracking :=
  {| trackingId := lit "def456";
     to := lit "cto@example.com";
     subject := lit "Hello";
     body := lit "Hi";
     role := lit "Engineer";
     company := lit "Acme";
     status := SENT;
     method := None;
     sentAt := 5000;
     openedAt := None;
     ipAddress := None;
     userAgent := None;
     openCount := 0 |}.

Definition twoRecords : gmap (list N) Tracking :=
  <[ lit "def456" := later ]> oneRecord.

(** A send request without a body. *)
Definition noBody : SendBody :=
  {| b_to := Some (lit "hr@example.com");
     b_subject := None;
     b_body := None;
     b_trackingId := Some abc123;
     b_role := None;
     b_company := None |}.

(** An instant at which the mailer rejects every message. *)
Definition mailDownAt (time : Z) : Env :=
  {| now := time;
     findOneThrows := false;
     updateOneThrows := false;
     createThrows := false;
     sendMail := fun _ _ _ => Throw MailError |}.

(** A click with a url that [decodeURIComponent] rejects. *)
Definition badClick : Env * Request :=
  (at_ 3000, GetClick (Some abc123) (Some (lit "https://x.com/?off=100%")) browser).

(** A fragment whose anchors are all excluded. *)
Definition onlyExcluded : JSString :=
  jsq "Write <a href=`mailto:x@y.com`>me</a> or see <a class=`k` href=`#top`>above</a>".

End Sample2.

(** * Properties *)

(** ** The matcher is sound for [denotes] *)

Section MatcherFacts.
Import Regex Shape.

Variable ic : bool.

Lemma starM_sound g cl cs k s z :
  starM ic g cl cs k s = Some z ->
  exists w s',
    s = w ++ s' /\ Forall (fun c => cmatch ic cl c = true) w
    /\ k (mkState s' cs) = Some z.
Proof.
  revert z. induction s as [|c s IH]; intros z H.
  - exists [], []. destruct g; simpl in H.
    + auto.
    + destruct (k (mkState [] cs)) eqn:E; [|discriminate]. auto.
  - assert (Hstop : k (mkState (c :: s) cs) = Some z ->
                    exists w s', c :: s = w ++ s'
                      /\ Forall (fun c => cmatch ic cl c = true) w
                      /\ k (mkState s' cs) = Some z).
    { intros Hk. exists [], (c :: s). auto. }
    assert (Hmore : cmatch ic cl c = true -> starM ic g cl cs k s = Some z ->
                    exists w s', c :: s = w ++ s'
                      /\ Forall (fun c => cmatch ic cl c = true) w
                      /\ k (mkState s' cs) = Some z).
    { intros Hc Hs. destruct (IH _ Hs) as (w & s' & -> & Hw & Hk).
      exists (c :: w), s'. auto. }
    destruct g; simpl in H.
    + destruct (cmatch ic cl c) eqn:Hc; [|auto].
      destruct (starM ic true cl cs k s) as [z'|] eqn:Hs; [|auto].
      inversion H; subst. auto.
    + destruct (k (mkState (c :: s) cs)) as [z'|] eqn:Hk.
      * inversion H; subst. auto.
      * destruct (cmatch ic cl c) eqn:Hc; [auto|discriminate].
Qed.

Lemma matcher_sound r : forall x k z,
  matcher ic r x k = Some z ->
  exists w s' cs',
    rest x = w ++ s' /\ denotes ic r w (caps x) cs'
    /\ k (mkState s' cs') = Some z.
Proof.
  induction r as [|cl|r1 IH1 r2 IH2|g cl|r1 IH1|n r1 IH1];
    intros [s cs] k z H; simpl in *.
  - exists [], s, cs. auto.
  - destruct s as [|c s']; [discriminate|].
    destruct (cmatch ic cl c) eqn:Hc; [|discriminate].
    exists [c], s', cs. split; [done|]. split; [|done]. exists c. auto.
  - apply IH1 in H as (w1 & s1 & cs1 & Hs & Hd1 & H).
    apply IH2 in H as (w2 & s2 & cs2 & Hs2 & Hd2 & H). simpl in *. subst.
    exists (w1 ++ w2), s2, cs2. split; [by rewrite <- app_assoc|].
    split; [|done]. exists w1, w2, cs1. auto.
  - apply starM_sound in H as (w & s' & -> & Hw & H).
    exists w, s', cs. auto.
  - match type of H with
    | match ?m with _ => _ end = _ => destruct m as [z'|] eqn:Hm
    end.
    + inversion H; subst.
      apply IH1 in Hm as (w & s' & cs' & Hs & Hd & Hk). simpl in *.
      destruct (length s' =? length s)%nat; [discriminate|].
      exists w, s', cs'. auto.
    + exists [], s, cs. auto.
  - apply IH1 in H as (w & s' & cs' & Hs & Hd & Hk). simpl in *. subst.
    rewrite length_app in Hk.
    replace (length w + length s' - length s')%nat with (length w) in Hk by lia.
    rewrite take_app_length in Hk.
    exists w, s', ((n, w) :: cs'). split; [done|]. split; [|done].
    exists cs'. auto.
Qed.

(** A successful attempt consumes a prefix of the input that [r]
    denotes. *)
Lemma matchAt_sound r s mt :
  matchAt ic r s = Some mt ->
  exists s', s = matched mt ++ s' /\ denotes ic r (matched mt) [] (groups mt).
Proof.
  unfold matchAt. intros H.
  destruct (matcher ic r (mkState s []) Some) as [y|] eqn:Hm; [|discriminate].
  inversion H; subst; clear H. simpl.
  apply matcher_sound in Hm as (w & s' & cs' & Hs & Hd & Hk).
  simpl in *. inversion Hk; subst; clear Hk. simpl.
  rewrite length_app.
  replace (length w + length s' - length s')%nat with (length w) by lia.
  rewrite take_app_length. eauto.
Qed.

(** The segments of a scan stand for the input, piece by piece. *)
Lemma scanFrom_source r s : forall skip,
  concat (map source (scanFrom ic r skip s)) = drop skip s.
Proof.
  induction s as [|c s IH]; intros [|k]; simpl.
  - destruct (matchAt ic r []) as [mt|] eqn:Hm; [|done].
    apply matchAt_sound in Hm as (s' & Hs & _).
    destruct mt as [w gs]; simpl in *.
    symmetry in Hs. apply app_eq_nil in Hs as [-> _]. done.
  - done.
  - destruct (matchAt ic r (c :: s)) as [mt|] eqn:Hm.
    + apply matchAt_sound in Hm as (s' & Hs & _).
      destruct mt as [[|c' w] gs]; simpl in *.
      * by rewrite IH.
      * inversion Hs; subst. rewrite IH.
        by rewrite drop_app_length.
    + simpl. by rewrite IH.
  - apply IH.
Qed.

(** Every match of a scan is a successful attempt at some index. *)
Lemma scanFrom_hit r mt s : forall skip,
  Hit mt ∈ scanFrom ic r skip s -> exists s', matchAt ic r s' = Some mt.
Proof.
  induction s as [|c s IH]; intros [|k]; simpl; intros H.
  - destruct (matchAt ic r []) as [mt'|] eqn:Hm.
    + apply elem_of_cons in H as [H|H]; [|by apply elem_of_nil in H].
      inversion H; subst. eauto.
    + by apply elem_of_nil in H.
  - by apply elem_of_nil in H.
  - destruct (matchAt ic r (c :: s)) as [mt'|] eqn:Hm.
    + apply elem_of_cons in H as [H|H]; [inversion H; subst; eauto|].
      destruct (length (matched mt')).
      * apply elem_of_cons in H as [H|H]; [discriminate|]. eauto.
      * eauto.
    + apply elem_of_cons in H as [H|H]; [discriminate|]. eauto.
  - eauto.
Qed.

(** [replace] over consecutive segments. *)
Lemma renderAll_app f l1 l2 :
  renderAll f (l1 ++ l2) =
  let! o1 := renderAll f l1 in
  let! o2 := renderAll f l2 in
  Ok (o1 ++ o2).
Proof.
  induction l1 as [|[c|mt] l1 IH]; simpl.
  - by destruct (renderAll f l2).
  - rewrite IH. destruct (renderAll f l1); simpl; [|done].
    by destruct (renderAll f l2).
  - destruct (f mt); simpl; [|done]. rewrite IH.
    destruct (renderAll f l1); simpl; [|done].
    destruct (renderAll f l2); simpl; [|done]. by rewrite app_assoc.
Qed.

Lemma denotes_str p : forall w cs cs',
  denotes true (str p) w cs cs' -> spells w p /\ cs' = cs.
Proof.
  induction p as [|a p IH]; intros w cs cs' H; simpl in H.
  - destruct H as [-> ->]. split; [constructor|done].
  - destruct H as (w1 & w2 & cs1 & -> & (c & -> & Hc & ->) & H).
    apply IH in H as [H ->]. split; [|done]. by constructor.
Qed.

Lemma denotes_plus cl w cs cs' :
  denotes ic (plus cl) w cs cs' ->
  w <> [] /\ Forall (fun c => cmatch ic cl c = true) w /\ cs' = cs.
Proof.
  simpl. intros (w1 & w2 & cs1 & -> & (c & -> & Hc & ->) & Hw & ->).
  split; [done|]. split; [|done]. by constructor.
Qed.

End MatcherFacts.

(** ** The anatomy of the matches of [linkRegex] *)

Section LinkRegexFacts.
Import Regex Shape Rewriter.

(** A pattern character that is not a letter matches only itself. *)
Lemma sameChar_symbol c a :
  a < 65 -> sameChar true c a = true <-> c = a.
Proof.
  intros Ha. unfold sameChar, canonicalize.
  destruct (_ && _) eqn:Hc; destruct ((97 <=? a) && (a <=? 122)) eqn:Ha';
    rewrite ?andb_true_iff, ?andb_false_iff, ?N.leb_le, ?N.leb_gt in *;
    rewrite N.eqb_eq; lia.
Qed.

Lemma cmatch_CNot c a :
  a < 65 -> cmatch true (CNot a) c = true <-> c <> a.
Proof.
  intros Ha. unfold cmatch.
  rewrite negb_true_iff, <- not_true_iff_false.
  by rewrite sameChar_symbol.
Qed.

Lemma Forall_CNot a w :
  a < 65 ->
  Forall (fun c => cmatch true (CNot a) c = true) w ->
  Forall (fun c => c <> a) w.
Proof.
  intros Ha H. eapply Forall_impl; [exact H|].
  intros c. by apply cmatch_CNot.
Qed.

Lemma Forall_CDot w :
  Forall (fun c => cmatch true CDot c = true) w ->
  Forall (fun c => isLineTerminator c = false) w.
Proof.
  intros H. eapply Forall_impl; [exact H|].
  intros c. simpl. by rewrite negb_true_iff.
Qed.

(** Every successful attempt of [linkRegex] has the anatomy of
    [Anchor]. *)
Lemma linkRegex_anchor s mt :
  matchAt true linkRegex s = Some mt ->
  exists lead url attributes content, Anchor mt lead url attributes content.
Proof.
  intros H. apply matchAt_sound in H as (s' & _ & H).
  destruct mt as [w gs]. cbn [matched groups] in H.
  unfold linkRegex, seq in H. cbn [foldr denotes] in H.
  destruct H as (tag & w1 & c1 & -> & Htag & H).
  apply denotes_str in Htag as [Htag ->].
  destruct H as (sp & w2 & c2 & -> & Hsp & H).
  apply denotes_plus in Hsp as (Hsp0 & Hsp & ->).
  destruct H as (lead & w3 & c3 & -> & Hlead & H).
  destruct H as (ho & w4 & c4 & -> & Hho & H).
  apply denotes_str in Hho as [Hho ->].
  destruct H as (url & w5 & c5 & -> & (c5' & [Hurl ->] & ->) & H).
  destruct H as (q & w6 & c6 & -> & (c & -> & Hq & ->) & H).
  destruct H as (attributes & w7 & c7 & -> & (c7' & [Hattr ->] & ->) & H).
  destruct H as (g & w8 & c8 & -> & (c' & -> & Hg & ->) & H).
  destruct H as (content & w9 & c9 & -> & (c9' & [Hcont ->] & ->) & H).
  destruct H as (close & w10 & c10 & -> & Hclose & -> & ->).
  apply denotes_str in Hclose as [Hclose ->].
  unfold cmatch in Hq, Hg.
  apply sameChar_symbol in Hq; [|by compute]. subst c.
  apply sameChar_symbol in Hg; [|by compute]. subst c'.
  exists lead, url, attributes, content, tag, sp, ho, close. simpl.
  rewrite app_nil_r.
  split; [done|]. split; [done|]. split; [done|]. split; [done|].
  split.
  { destruct Hlead as [[-> _]|Hlead]; [by left|right].
    destruct Hlead as (a & b & ca & -> & [Ha ->] & (b' & e & cb & -> & Hb & -> & _)).
    apply denotes_plus in Hb as (Hb0 & Hb & _).
    exists a, b'. rewrite app_nil_r.
    split; [done|]. split; [|done].
    apply Forall_CNot; [by compute|done]. }
  split; [done|].
  split. { apply Forall_CNot; [by compute|done]. }
  split. { apply Forall_CNot; [by compute|done]. }
  split. { by apply Forall_CDot. }
  split; [done|].
  destruct Hlead as [[_ ->]|Hlead]; [done|].
  destruct Hlead as (a & b & ca & _ & [_ ->] & (b' & e & cb & _ & Hb & _ & ->)).
  apply denotes_plus in Hb as (_ & _ & ->). done.
Qed.

End LinkRegexFacts.

(** ** The link rewriter *)

Section RewriterFacts.
Import Regex Shape Rewriter.

Variable BASE_URL : JSString.

(** A match of the scan of [linkRegex] has the anatomy of [Anchor], with
    the callback's [url] as its href. *)
Lemma scan_anchor html before after mt url :
  scan true linkRegex html = before ++ Hit mt :: after ->
  capture 1 (groups mt) = Some url ->
  exists lead attributes content, Anchor mt lead url attributes content.
Proof.
  intros Hscan Hurl.
  assert (Hin : Hit mt ∈ scanFrom true linkRegex 0 html).
  { unfold scan in Hscan. rewrite Hscan, elem_of_app, elem_of_cons. auto. }
  apply scanFrom_hit in Hin as (s' & Hm).
  apply linkRegex_anchor in Hm as (lead & url' & attributes & content & HA).
  assert (url' = url) as <-.
  { destruct HA as (? & ? & ? & ? & HA). destruct_and!.
    match goal with Hg : groups mt = _ |- _ => rewrite Hg in Hurl end.
    simpl in Hurl. congruence. }
  eauto.
Qed.

Lemma scan_source html before after mt :
  scan true linkRegex html = before ++ Hit mt :: after ->
  html = concat (map source before) ++ matched mt ++ concat (map source after).
Proof.
  intros Hscan.
  pose proof (scanFrom_source true linkRegex html 0) as Hsrc.
  unfold scan in Hscan. rewrite Hscan in Hsrc.
  rewrite map_app, concat_app in Hsrc. simpl in Hsrc. by rewrite Hsrc.
Qed.

Lemma rewrite_at html trackingId before after mt :
  scan true linkRegex html = before ++ Hit mt :: after ->
  rewriteLinksForTracking BASE_URL html trackingId =
  (let! o1 := renderAll (rewriteMatch BASE_URL trackingId) before in
   let! p := rewriteMatch BASE_URL trackingId mt in
   let! o2 := renderAll (rewriteMatch BASE_URL trackingId) after in
   Ok (o1 ++ p ++ o2)).
Proof.
  intros Hscan. unfold rewriteLinksForTracking, replace.
  rewrite Hscan, renderAll_app. simpl.
  destruct (renderAll _ before); simpl; [|done].
  destruct (rewriteMatch _ _ mt); simpl; [|done].
  by destruct (renderAll _ after).
Qed.

(** C8: an anchor matched by the rewriter whose href starts with
    "mailto:" or with "#" is left byte-identical. Whatever the fragment
    and the tracking identifier, the match is an anchor with that href,
    it stands in the input between the pieces before and after it, and
    the output is the rewriting of the pieces before it, the matched text
    unchanged, and the rewriting of the pieces after it. *)
Theorem C8_excluded_anchor_unchanged
    (html trackingId : JSString) (before after : list Segment)
    (mt : Match) (url : JSString) :
  scan true linkRegex html = before ++ Hit mt :: after ->
  capture 1 (groups mt) = Some url ->
  excluded url = true ->
  (exists lead attributes content, Anchor mt lead url attributes content)
  /\ html = concat (map source before) ++ matched mt
            ++ concat (map source after)
  /\ rewriteMatch BASE_URL trackingId mt = Ok (matched mt)
  /\ rewriteLinksForTracking BASE_URL html trackingId =
     (let! o1 := renderAll (rewriteMatch BASE_URL trackingId) before in
      let! o2 := renderAll (rewriteMatch BASE_URL trackingId) after in
      Ok (o1 ++ matched mt ++ o2)).
Proof.
  intros Hscan Hurl Hex.
  assert (Hm : rewriteMatch BASE_URL trackingId mt = Ok (matched mt)).
  { unfold rewriteMatch. by rewrite Hurl, Hex. }
  split; [by eapply scan_anchor|].
  split; [by eapply scan_source|]. split; [done|].
  rewrite (rewrite_at _ _ _ _ _ Hscan), Hm. simpl.
  by destruct (renderAll _ before).
Qed.

(** C9: an anchor matched by the rewriter whose href is neither "mailto:"
    nor a fragment gets the href
    BASE_URL/api/click?id=trackingId&url=e, where e is
    encodeURIComponent of the href the anchor had; its attributes after
    the href and its content follow as they were. *)
Theorem C9_rewritten_href_template
    (html trackingId : JSString) (before after : list Segment)
    (mt : Match) (url : JSString) :
  scan true linkRegex html = before ++ Hit mt :: after ->
  capture 1 (groups mt) = Some url ->
  excluded url = false ->
  exists lead attributes content,
    Anchor mt lead url attributes content
    /\ rewriteLinksForTracking BASE_URL html trackingId =
       (let! o1 := renderAll (rewriteMatch BASE_URL trackingId) before in
        let! e := URI.encodeURIComponent url in
        let! o2 := renderAll (rewriteMatch BASE_URL trackingId) after in
        Ok (o1
            ++ (lit "<a href=" ++ [dquote]
                ++ (BASE_URL ++ lit "/api/click?id=" ++ trackingId
                    ++ lit "&url=" ++ e)
                ++ [dquote] ++ attributes ++ lit ">" ++ content ++ lit "</a>")
            ++ o2)).
Proof.
  intros Hscan Hurl Hex.
  destruct (scan_anchor _ _ _ _ _ Hscan Hurl) as (lead & attributes & content & HA).
  exists lead, attributes, content. split; [done|].
  rewrite (rewrite_at _ _ _ _ _ Hscan).
  destruct HA as (? & ? & ? & ? & HA). destruct_and!.
  unfold rewriteMatch.
  match goal with Hg : groups mt = _ |- _ => rewrite Hg end.
  cbn [capture Nat.eqb]. rewrite Hex. unfold shown, rewrittenAnchor, trackingUrl.
  destruct (renderAll _ before); simpl; [|done].
  by destruct (URI.encodeURIComponent url).
Qed.

(** ** Fragments without a double-quoted href *)

Lemma spells_ciPrefix w p r : spells w p -> ciPrefix p (w ++ r) = true.
Proof.
  induction 1 as [|c a w p Hc _ IH]; cbn [ciPrefix app]; [done|].
  by rewrite Hc, IH.
Qed.

Lemma hasQuotedHref_intro l c ho r :
  isWhiteSpace c = true -> spells ho hrefOpen ->
  hasQuotedHref (l ++ c :: ho ++ r) = true.
Proof.
  intros Hc Hho. induction l as [|x l IH].
  - simpl app. unfold hasQuotedHref; fold hasQuotedHref.
    unfold quotedHrefAt. by rewrite Hc, spells_ciPrefix.
  - simpl app. unfold hasQuotedHref; fold hasQuotedHref.
    rewrite IH. apply orb_true_r.
Qed.

Lemma last_white w :
  w <> [] -> Forall (fun c => isWhiteSpace c = true) w ->
  exists w' c, w = w' ++ [c] /\ isWhiteSpace c = true.
Proof.
  intros Hne Hw. destruct (exists_last Hne) as (w' & c & ->).
  apply Forall_app in Hw as [_ Hc]. inversion Hc; subst. eauto.
Qed.

(** Where [linkRegex] matches, the input has a white-space character
    followed by [href=Q]. *)
Lemma match_hasQuotedHref s mt :
  matchAt true linkRegex s = Some mt -> hasQuotedHref s = true.
Proof.
  intros Hm.
  destruct (matchAt_sound _ _ _ _ Hm) as (s' & -> & _).
  apply linkRegex_anchor in Hm as (lead & url & attributes & content & HA).
  destruct HA as (tag & sp & ho & close & -> & _ & Hsp0 & Hsp & Hlead & Hho & _).
  destruct Hlead as [->|(a & b & -> & _ & Hb0 & Hb)].
  - destruct (last_white _ Hsp0 Hsp) as (sp' & c & -> & Hc).
    pose proof (hasQuotedHref_intro (tag ++ sp') c ho
      (url ++ [dquote] ++ attributes ++ [gt] ++ content ++ close ++ s')
      Hc Hho) as Hq.
    rewrite <- Hq. f_equal.
    by repeat (progress (simpl; rewrite <- ?app_assoc)).
  - destruct (last_white _ Hb0 Hb) as (b' & c & -> & Hc).
    pose proof (hasQuotedHref_intro (tag ++ sp ++ a ++ b') c ho
      (url ++ [dquote] ++ attributes ++ [gt] ++ content ++ close ++ s')
      Hc Hho) as Hq.
    rewrite <- Hq. f_equal.
    by repeat (progress (simpl; rewrite <- ?app_assoc)).
Qed.

Lemma scan_no_match s :
  hasQuotedHref s = false -> scanFrom true linkRegex 0 s = map Text s.
Proof.
  induction s as [|c s IH]; intros H.
  - simpl. destruct (matchAt true linkRegex []) eqn:Hm; [|done].
    apply match_hasQuotedHref in Hm. congruence.
  - unfold scanFrom; fold scanFrom.
    destruct (matchAt true linkRegex (c :: s)) eqn:Hm.
    + apply match_hasQuotedHref in Hm. congruence.
    + simpl map. f_equal. apply IH.
      unfold hasQuotedHref in H; fold hasQuotedHref in H.
      by apply orb_false_iff in H as [_ H].
Qed.

Lemma renderAll_text f s : renderAll f (map Text s) = Ok s.
Proof. induction s as [|c s IH]; simpl; [done|]. by rewrite IH. Qed.

(** A fragment in which no white-space character is followed by
    [href=Q] has no match and passes through the rewrite unchanged. *)
Lemma fragment_without_quoted_href (html trackingId : JSString) :
  hasQuotedHref html = false ->
  rewriteLinksForTracking BASE_URL html trackingId = Ok html.
Proof.
  intros H. unfold rewriteLinksForTracking, replace, scan.
  rewrite scan_no_match by done. apply renderAll_text.
Qed.

(** ** An anchor without a double-quoted href, inside any fragment *)

Lemma sameChar_gt c a : sameChar true c a = true -> a <> gt -> c <> gt.
Proof.
  unfold sameChar, canonicalize, gt. intros H Ha ->.
  change ((97 <=? 62) && (62 <=? 122)) with false in H. cbv iota in H.
  apply N.eqb_eq in H.
  destruct ((97 <=? a) && (a <=? 122)) eqn:E; [|congruence].
  apply andb_true_iff in E as [E1 E2]. apply N.leb_le in E1, E2. lia.
Qed.

Lemma spells_no_gt w p :
  spells w p -> Forall (fun a => a <> gt) p -> Forall (fun c => c <> gt) w.
Proof.
  induction 1 as [|c a w p Hc _ IH]; intros Hp; [constructor|].
  inversion Hp; subst. constructor; [by eapply sameChar_gt|by apply IH].
Qed.

Lemma white_no_gt w :
  Forall (fun c => isWhiteSpace c = true) w -> Forall (fun c => c <> gt) w.
Proof.
  intros H. eapply Forall_impl; [exact H|]. by intros c Hc ->.
Qed.

Lemma ciPrefix_app p s r : ciPrefix p s = true -> ciPrefix p (s ++ r) = true.
Proof.
  revert s. induction p as [|a p IH]; intros [|c s]; cbn [ciPrefix app];
    try done.
  intros [Hc Hp]%andb_true_iff. by rewrite Hc, IH.
Qed.

Lemma hasQuotedHref_app_l h r :
  hasQuotedHref h = true -> hasQuotedHref (h ++ r) = true.
Proof.
  induction h as [|c h IH]; [done|].
  cbn [app]. unfold hasQuotedHref; fold hasQuotedHref.
  intros [H|H]%orb_true_iff.
  - unfold quotedHrefAt in *. apply andb_true_iff in H as [Hc Hp].
    by rewrite Hc, ciPrefix_app.
  - rewrite IH by done. apply orb_true_r.
Qed.

Lemma tagText_app h r :
  Forall (fun c => c <> gt) h -> tagText (h ++ r) = h ++ tagText r.
Proof.
  induction 1 as [|c h Hc _ IH]; [done|].
  cbn [app tagText]. apply N.eqb_neq in Hc. by rewrite Hc, IH.
Qed.

(** Where [linkRegex] matches: the match begins with a piece without ">"
    that starts with [<a] and white space and in which a white-space
    character is followed by [href=Q]; whatever follows that piece, it
    opens a double-quoted href. *)
Lemma match_head s mt :
  matchAt true linkRegex s = Some mt ->
  exists head tail,
    matched mt = head ++ tail
    /\ Forall (fun c => c <> gt) head
    /\ forall r, opensQuotedHref (head ++ r) = true.
Proof.
  intros Hm.
  apply linkRegex_anchor in Hm as (lead & url & attributes & content & HA).
  destruct HA as (tag & sp & ho & close & -> & Htag & Hsp0 & Hsp & Hlead
                  & Hho & _).
  exists (tag ++ sp ++ lead ++ ho),
    (url ++ [dquote] ++ attributes ++ [gt] ++ content ++ close).
  split; [by rewrite <- !app_assoc|].
  assert (Hmid : Forall (fun c => c <> gt) (sp ++ lead ++ ho)).
  { rewrite !Forall_app. split; [|split].
    - by apply white_no_gt.
    - destruct Hlead as [->|(a & b & -> & Ha & _ & Hb)]; [constructor|].
      apply Forall_app. split; [done|by apply white_no_gt].
    - apply (spells_no_gt _ _ Hho). by repeat constructor. }
  split.
  { apply Forall_app. split; [|done].
    apply (spells_no_gt _ _ Htag). by repeat constructor. }
  intros r.
  assert (Hq : hasQuotedHref (sp ++ lead ++ ho) = true).
  { destruct Hlead as [->|(a & b & -> & _ & Hb0 & Hb)].
    - destruct (last_white _ Hsp0 Hsp) as (sp' & c & -> & Hc).
      pose proof (hasQuotedHref_intro sp' c ho [] Hc Hho) as Hq.
      rewrite <- Hq. f_equal. rewrite app_nil_r.
      by repeat (progress (simpl; rewrite <- ?app_assoc)).
    - destruct (last_white _ Hb0 Hb) as (b' & c & -> & Hc).
      pose proof (hasQuotedHref_intro (sp ++ a ++ b') c ho [] Hc Hho) as Hq.
      rewrite <- Hq. f_equal. rewrite app_nil_r.
      by repeat (progress (simpl; rewrite <- ?app_assoc)). }
  unfold opensQuotedHref.
  assert (Hdrop : drop 2 ((tag ++ sp ++ lead ++ ho) ++ r)
                  = (sp ++ lead ++ ho) ++ r).
  { rewrite <- !app_assoc.
    replace 2%nat with (length tag); [by rewrite drop_app_length|].
    by apply Forall2_length in Htag. }
  rewrite Hdrop, <- (app_assoc tag), spells_ciPrefix by done.
  rewrite tagText_app, hasQuotedHref_app_l by done.
  destruct sp as [|c sp]; [done|]. apply Forall_cons in Hsp as [Hc _].
  cbn [app startsWhite]. by rewrite Hc.
Qed.

Lemma match_nonempty s mt :
  matchAt true linkRegex s = Some mt -> matched mt <> [].
Proof.
  intros Hm. destruct (match_head _ _ Hm) as (head & tail & -> & _ & Hq).
  specialize (Hq []). by destruct head.
Qed.

(** No match begins at the start of a text that holds ">" further on
    and does not open a double-quoted href. *)
Lemma match_needs_quoted_href a post mt :
  matchAt true linkRegex (a ++ post) = Some mt ->
  gt ∈ a -> opensQuotedHref a = true.
Proof.
  intros Hm Hin.
  destruct (matchAt_sound _ _ _ _ Hm) as (s' & Hs & _).
  destruct (match_head _ _ Hm) as (head & tail & Hmt & Hgt & Hq).
  rewrite Hmt, <- app_assoc in Hs.
  apply app_eq_app in Hs as [l [[-> _]|[-> _]]].
  - apply Hq.
  - apply Forall_app in Hgt as [Hgt _].
    rewrite Forall_forall in Hgt. by destruct (Hgt _ Hin).
Qed.

(** The scan copies a text that ends with ">" and in which no tag opens
    a double-quoted href, and resumes behind it. *)
Lemma scan_passes_anchor a post :
  opensQuotedHrefIn a = false -> last a = Some gt ->
  scanFrom true linkRegex 0 (a ++ post)
  = map Text a ++ scanFrom true linkRegex 0 post.
Proof.
  induction a as [|c a IH]; intros Hq Hl; [done|].
  assert (Hin : gt ∈ c :: a).
  { apply last_Some in Hl as [l' ->]. apply elem_of_app. right.
    apply elem_of_cons. by left. }
  unfold opensQuotedHrefIn in Hq; fold opensQuotedHrefIn in Hq.
  apply orb_false_iff in Hq as [Hq0 Hq].
  cbn [app]. unfold scanFrom; fold scanFrom.
  destruct (matchAt true linkRegex (c :: a ++ post)) as [mt|] eqn:Hm.
  { apply (match_needs_quoted_href (c :: a) post) in Hm; [congruence|done]. }
  cbn [map app]. f_equal.
  destruct a as [|d a]; [done|]. by apply IH.
Qed.

(** Where the scan is between two segments at the start of such a text,
    the segments that follow are the text, code unit by code unit, and
    the scan of what stands behind it. *)
Lemma scan_boundary a post s : forall skip before rest,
  scanFrom true linkRegex skip s = before ++ rest ->
  drop skip s = concat (map source before) ++ a ++ post ->
  opensQuotedHrefIn a = false -> last a = Some gt ->
  rest = map Text a ++ scanFrom true linkRegex 0 post.
Proof.
  induction s as [|c s IH]; intros skip before rest Hscan Hdrop Hq Hl.
  { rewrite drop_nil in Hdrop. symmetry in Hdrop.
    apply app_eq_nil in Hdrop as [_ [-> _]%app_eq_nil]. done. }
  destruct skip as [|k]; [|by apply (IH k before rest)].
  rewrite drop_0 in Hdrop.
  destruct before as [|sg before].
  { cbn [app concat map] in *. rewrite <- Hscan, Hdrop.
    by apply scan_passes_anchor. }
  unfold scanFrom in Hscan; fold scanFrom in Hscan.
  destruct (matchAt true linkRegex (c :: s)) as [mt|] eqn:Hm.
  - pose proof (match_nonempty _ _ Hm) as Hne.
    destruct (length (matched mt)) as [|k] eqn:Hlen;
      [by destruct (matched mt)|].
    cbn [app] in Hscan. inversion Hscan as [[Hsg Hrest]]; subst sg.
    apply (IH k before rest Hrest); [|done..].
    cbn [map concat source] in Hdrop.
    change (drop k s) with (drop (S k) (c :: s)).
    by rewrite Hdrop, <- Hlen, <- app_assoc, drop_app_length.
  - cbn [app] in Hscan. inversion Hscan as [[Hsg Hrest]]; subst sg.
    apply (IH 0%nat before rest Hrest); [|done..].
    cbn [map concat source app] in Hdrop. rewrite drop_0. congruence.
Qed.

(** The start of a piece of the input is either between two segments of
    the scan or inside a match that begins before it. *)
Lemma scan_boundary_or_inside s : forall skip pre t,
  drop skip s = pre ++ t ->
  (exists before rest,
      scanFrom true linkRegex skip s = before ++ rest
      /\ concat (map source before) = pre)
  \/ (exists before mt after p1 p2,
        scanFrom true linkRegex skip s = before ++ Hit mt :: after
        /\ pre = concat (map source before) ++ p1
        /\ matched mt = p1 ++ p2 /\ p1 <> [] /\ p2 <> []).
Proof.
  induction s as [|c s IH]; intros skip pre t Hdrop.
  { rewrite drop_nil in Hdrop. symmetry in Hdrop.
    apply app_eq_nil in Hdrop as [-> _]. left.
    by exists [], (scanFrom true linkRegex skip []). }
  destruct skip as [|k]; [|by apply (IH k pre t)].
  rewrite drop_0 in Hdrop.
  destruct pre as [|x pre];
    [left; by exists [], (scanFrom true linkRegex 0 (c :: s))|].
  unfold scanFrom; fold scanFrom.
  destruct (matchAt true linkRegex (c :: s)) as [mt|] eqn:Hm.
  - pose proof (match_nonempty _ _ Hm) as Hne.
    destruct (matchAt_sound _ _ _ _ Hm) as (s' & Hs & _).
    destruct (length (matched mt)) as [|k] eqn:Hlen;
      [by destruct (matched mt)|].
    assert (Hk : drop k s = s').
    { change (drop k s) with (drop (S k) (c :: s)).
      by rewrite Hs, <- Hlen, drop_app_length. }
    rewrite Hs in Hdrop.
    apply app_eq_app in Hdrop as [l [[Hmt Ht]|[Hpre Hs']]].
    + destruct l as [|y l].
      * rewrite app_nil_r in Hmt. left. exists [Hit mt], (scanFrom true linkRegex k s).
        split; [done|]. cbn [map concat source]. by rewrite app_nil_r.
      * right. exists [], mt, (scanFrom true linkRegex k s), (x :: pre), (y :: l).
        by repeat split.
    + rewrite Hs' in Hk.
      destruct (IH k l t Hk)
        as [(before & rest & Hscan & Hsrc)
           |(before & mt' & after & p1 & p2 & Hscan & Hl & Hrest)].
      * left. exists (Hit mt :: before), rest.
        split; [cbn [app]; by rewrite Hscan|].
        cbn [map concat source]. by rewrite Hsrc, Hpre.
      * right. exists (Hit mt :: before), mt', after, p1, p2.
        split; [cbn [app]; by rewrite Hscan|].
        split; [|done]. cbn [map concat source].
        by rewrite Hpre, Hl, <- app_assoc.
  - injection Hdrop as Hx Hs. subst x.
    assert (Hd : drop 0 s = pre ++ t) by by rewrite drop_0.
    destruct (IH 0%nat pre t Hd)
      as [(before & rest & Hscan & Hsrc)
         |(before & mt' & after & p1 & p2 & Hscan & Hl & Hrest)].
    + left. exists (Text c :: before), rest.
      split; [cbn [app]; by rewrite Hscan|].
      cbn [map concat source app]. by rewrite Hsrc.
    + right. exists (Text c :: before), mt', after, p1, p2.
      split; [cbn [app]; by rewrite Hscan|].
      split; [|done]. cbn [map concat source app]. by rewrite Hl.
Qed.

(** C10 (amended): the rewriter matches only where a tag begins with
    [<a] and white space and holds, before its first ">", a white-space
    character followed by [href=Q] (in any letter case): every match of
    the scan of any fragment begins so. An anchor [a] (a text that ends
    with ">", as its closing tag does) in which no such tag begins, and
    whose start is between two segments of the scan, not inside a match
    begun before it, passes through unchanged whatever the fragment
    holds before and after it: the scan goes on with the code units of
    [a] as text and the scan of what follows, and the output is the
    rewriting of what precedes, [a] as it was, and the rewriting of what
    follows. *)
Theorem C10_unquoted_anchor_unchanged
    (pre a post trackingId : JSString) (before rest : list Segment) :
  opensQuotedHrefIn a = false -> last a = Some gt ->
  scan true linkRegex (pre ++ a ++ post) = before ++ rest ->
  concat (map source before) = pre ->
  (forall html mt, Hit mt ∈ scan true linkRegex html ->
     opensQuotedHref (matched mt) = true)
  /\ rest = map Text a ++ scan true linkRegex post
  /\ rewriteLinksForTracking BASE_URL (pre ++ a ++ post) trackingId =
     (let! o1 := renderAll (rewriteMatch BASE_URL trackingId) before in
      let! o2 := rewriteLinksForTracking BASE_URL post trackingId in
      Ok (o1 ++ a ++ o2)).
Proof.
  intros Hq Hl Hscan Hpre.
  assert (Hrest : rest = map Text a ++ scan true linkRegex post).
  { apply (scan_boundary a post (pre ++ a ++ post) 0%nat before rest);
      [done|by rewrite drop_0, Hpre|done..]. }
  split; [|split; [done|]].
  - intros html mt Hin. apply scanFrom_hit in Hin as (s' & Hm).
    destruct (match_head _ _ Hm) as (head & tail & -> & _ & Ho). apply Ho.
  - unfold rewriteLinksForTracking, replace.
    rewrite Hscan, Hrest, !renderAll_app, renderAll_text.
    destruct (renderAll _ before); simpl; [|done].
    destruct (renderAll _ (scan true linkRegex post)); simpl; [|done].
    done.
Qed.

End RewriterFacts.

(** ** The engagement state machine *)

Section TrackerFacts.
Import Tracker Engagement Lifecycle.

Variable BASE_URL : JSString.

Ltac run_monad :=
  unfold step, handle, handler, sendHandler, clickHandler, pixelHandler,
    tryCatch, bind, ret, liftR, findOne, updateOne, create in *;
  simpl fst in *; simpl snd in *; cbv beta iota in *.

(** The record under [t] after a request is the record before it,
    advanced by [after]; a new record appears under [t] only through
    [Tracking.create]. *)
Lemma step_lookup st op t :
  step BASE_URL st op !! t =
  match st !! t with
  | Some r => Some (after t r op)
  | None => created t op
  end.
Proof.
  destruct op as [env [b|id url rq|id rq]];
    unfold after, created, engages, creates, engage; run_monad.
  - (* send *)
    rewrite andb_false_r.
    destruct (truthy (b_to b)), (truthy (b_body b)),
      (truthy (b_trackingId b)); simpl; try by destruct (st !! t).
    destruct (createThrows env); simpl; [by destruct (st !! t)|].
    destruct (st !! strOf (b_trackingId b)) as [r0|] eqn:Hid; simpl.
    + destruct (st !! t) eqn:Ht; [done|].
      rewrite bool_decide_eq_false_2; [done|]. congruence.
    + assert (Hst : <[strOf (b_trackingId b) := newTracking env b]> st !! t =
                    match st !! t with
                    | Some r => Some r
                    | None => if bool_decide (strOf (b_trackingId b) = t)
                              then Some (newTracking env b) else None
                    end).
      { rewrite lookup_insert. case_bool_decide; subst.
        - rewrite decide_True by done. by rewrite Hid.
        - rewrite decide_False by done. by destruct (st !! t). }
      destruct (composeHtml BASE_URL b); simpl; [|apply Hst].
      destruct (sendMail env _ _ _); simpl; apply Hst.
  - (* click *)
    destruct (truthy id), (truthy url); simpl;
      try (rewrite ?andb_false_r; by destruct (st !! t)).
    destruct (findOneThrows env); simpl.
    { destruct (URI.decodeURIComponent (strOf url)); simpl;
        by destruct (st !! t). }
    destruct (st !! strOf id) as [tr|] eqn:Hid; simpl.
    + destruct (updateOneThrows env); simpl.
      { destruct (URI.decodeURIComponent (strOf url)); simpl;
          by destruct (st !! t). }
      assert (Hst : alter (applyUpdate (clickUpdate env rq tr)) (strOf id) st !! t =
                    match st !! t with
                    | Some r =>
                        Some (if bool_decide (strOf id = t)
                              then applyUpdate (clickUpdate env rq r) r else r)
                    | None => None
                    end).
      { rewrite lookup_alter. case_bool_decide; subst.
        - rewrite decide_True by done. by rewrite Hid.
        - rewrite decide_False by done. by destruct (st !! t). }
      destruct (URI.decodeURIComponent (strOf url)); simpl; apply Hst.
    + assert (Hst : st !! t =
                    match st !! t with
                    | Some r =>
                        Some (if negb (updateOneThrows env)
                                 && bool_decide (strOf id = t)
                              then applyUpdate (clickUpdate env rq r) r else r)
                    | None => None
                    end).
      { destruct (st !! t) eqn:Ht; [|done].
        rewrite bool_decide_eq_false_2 by congruence.
        by rewrite andb_false_r. }
      destruct (URI.decodeURIComponent (strOf url)); simpl; apply Hst.
  - (* pixel *)
    destruct (findOneThrows env); simpl; [by destruct (st !! t)|].
    destruct (st !! id) as [tr|] eqn:Hid; simpl.
    + destruct (updateOneThrows env); simpl; [by destruct (st !! t)|].
      rewrite lookup_alter. case_bool_decide; subst.
      * rewrite decide_True by done. by rewrite Hid.
      * rewrite decide_False by done. by destruct (st !! t).
    + destruct (st !! t) eqn:Ht; [|done].
      rewrite bool_decide_eq_false_2 by congruence.
      by rewrite andb_false_r.
Qed.

Lemma run_lookup ops : forall st t r,
  st !! t = Some r ->
  run BASE_URL ops st !! t = Some (foldl (after t) r ops).
Proof.
  induction ops as [|op ops IH]; intros st t r Hr; simpl; [done|].
  apply IH. by rewrite step_lookup, Hr.
Qed.

Lemma run_app ops1 ops2 st :
  run BASE_URL (ops1 ++ ops2) st = run BASE_URL ops2 (run BASE_URL ops1 st).
Proof. apply foldl_app. Qed.

(** [Tracking.create] leaves a fresh record. *)
Lemma created_fresh t op r : created t op = Some r -> fresh r.
Proof.
  unfold created. destruct (snd op); try discriminate.
  destruct (creates t op); [|discriminate].
  intros H. inversion H; subst. by repeat split.
Qed.

Lemma step_created st t op :
  st !! t = None -> creates t op = true ->
  exists r, step BASE_URL st op !! t = Some r /\ fresh r.
Proof.
  intros Hnone Hc. rewrite step_lookup, Hnone.
  assert (exists r, created t op = Some r) as [r Hr].
  { unfold created. unfold creates in Hc.
    destruct (snd op) eqn:Hop; try discriminate.
    unfold creates. rewrite Hop, Hc. eauto. }
  exists r. split; [done|]. by eapply created_fresh.
Qed.

(** Requests that are no engagement on [t] leave its record as it is. *)
Lemma foldl_after_idle t ops : forall r,
  Forall (fun op => engages t op = false) ops -> foldl (after t) r ops = r.
Proof.
  induction ops as [|op ops IH]; intros r H; simpl; [done|].
  inversion H; subst. unfold after at 2.
  match goal with He : engages t op = false |- _ => rewrite He end. auto.
Qed.

(** The counter grows by one with each engagement. *)
Lemma engage_openCount t op r :
  engages t op = true -> openCount (engage op r) = (openCount r + 1)%Z.
Proof.
  unfold engages, engage. destruct op as [env [b|id url rq|id rq]];
    simpl; intros He.
  - rewrite andb_false_r in He. discriminate.
  - done.
  - unfold pixelUpdate. by destruct (status r).
Qed.

Lemma foldl_after_openCount t ops : forall r,
  openCount (foldl (after t) r ops) =
  (openCount r + Z.of_nat (engagements t ops))%Z.
Proof.
  induction ops as [|op ops IH]; intros r; simpl.
  - unfold engagements. simpl. lia.
  - rewrite IH. unfold after, engagements. rewrite filter_cons.
    destruct (engages t op) eqn:He.
    + rewrite decide_True by done.
      rewrite (engage_openCount t) by done. simpl. lia.
    + rewrite decide_False by congruence. lia.
Qed.

Lemma engagements_all t ops :
  Forall (fun op => engages t op = true) ops ->
  engagements t ops = length ops.
Proof.
  unfold engagements. induction 1 as [|op ops He _ IH]; [done|].
  rewrite filter_cons, decide_True by done. simpl. by rewrite IH.
Qed.

(** The first engagement sets the three fields together. *)
Lemma engage_first t op r :
  fresh r -> engages t op = true ->
  openedWith (now (fst op)) (channel op) (engage op r).
Proof.
  intros (Hs & Hm & Ho & _) He. unfold engages in He.
  unfold openedWith, engage, channel.
  destruct op as [env [b|id url rq|id rq]];
    cbn [fst snd] in *; unfold applyUpdate, clickUpdate, pixelUpdate.
  - by rewrite andb_false_r in He.
  - by rewrite Hs, Hm, Ho.
  - by rewrite Hs.
Qed.

(** No later request changes them. *)
Lemma after_opened t d m r op :
  openedWith d m r -> openedWith d m (after t r op).
Proof.
  intros (Hs & Ho & Hm). unfold after.
  destruct (engages t op); [|done].
  unfold openedWith, engage.
  destruct op as [env [b|id url rq|id rq]];
    cbn [fst snd]; unfold applyUpdate, clickUpdate, pixelUpdate.
  - done.
  - by rewrite Hs, Ho, Hm.
  - by rewrite Hs.
Qed.

Lemma foldl_after_opened t d m ops : forall r,
  openedWith d m r -> openedWith d m (foldl (after t) r ops).
Proof.
  induction ops as [|op ops IH]; intros r H; simpl; [done|].
  apply IH. by apply after_opened.
Qed.

(** The life of a record: created fresh by a send request, untouched by
    the requests [idle] that are no engagement on it, opened by the first
    engagement [ev], whatever requests [later] follow. *)
Lemma lifecycle st0 t send idle ev later :
  st0 !! t = None -> creates t send = true ->
  Forall (fun op => engages t op = false) idle ->
  engages t ev = true ->
  exists r0,
    fresh r0
    /\ step BASE_URL st0 send !! t = Some r0
    /\ run BASE_URL idle (step BASE_URL st0 send) !! t = Some r0
    /\ exists r,
         run BASE_URL (idle ++ ev :: later) (step BASE_URL st0 send) !! t
           = Some r
         /\ openedWith (now (fst ev)) (channel ev) r.
Proof.
  intros Hnone Hsend Hidle Hev.
  destruct (step_created _ _ _ Hnone Hsend) as (r0 & Hr0 & Hfresh).
  exists r0. split; [done|]. split; [done|].
  assert (Hidle' : run BASE_URL idle (step BASE_URL st0 send) !! t = Some r0).
  { rewrite (run_lookup _ _ _ _ Hr0). by rewrite foldl_after_idle. }
  split; [done|].
  rewrite run_app. simpl.
  assert (Hfirst : step BASE_URL (run BASE_URL idle (step BASE_URL st0 send)) ev
                     !! t = Some (engage ev r0)).
  { rewrite step_lookup, Hidle'. unfold after. by rewrite Hev. }
  change (foldl (step BASE_URL)
            (step BASE_URL (run BASE_URL idle (step BASE_URL st0 send)) ev) later)
    with (run BASE_URL later
            (step BASE_URL (run BASE_URL idle (step BASE_URL st0 send)) ev)).
  rewrite (run_lookup _ _ _ _ Hfirst).
  eexists. split; [done|].
  apply foldl_after_opened. by eapply engage_first.
Qed.

End TrackerFacts.

(** ** The round trip through the click endpoint *)

Section ClickFacts.
Import Tracker Lifecycle.

Variable BASE_URL : JSString.

Lemma unescapeItems_plain s :
  Forall (fun c => c <> URI.percent) s ->
  URI.unescapeItems s = Ok (map URI.Unit s).
Proof.
  induction 1 as [|c s Hc _ IH]; simpl; [done|].
  apply N.eqb_neq in Hc. by rewrite Hc, IH.
Qed.

Lemma decodeItems_units s : URI.decodeItems (map URI.Unit s) = Ok s.
Proof. induction s as [|c s IH]; simpl; [done|]. by rewrite IH. Qed.

(** [decodeURIComponent] returns a string without "%" as it is. *)
Lemma decodeURIComponent_plain s :
  Forall (fun c => c <> URI.percent) s -> URI.decodeURIComponent s = Ok s.
Proof.
  intros H. unfold URI.decodeURIComponent.
  rewrite unescapeItems_plain by done. apply decodeItems_units.
Qed.

(** A click with both parameters is answered by a redirect to
    [decodeURIComponent(url)] whenever that call returns. *)
Lemma click_response (env : Env) (id url d : JSString) (rq : Req)
    (st : gmap (list N) Tracking) :
  id <> [] -> url <> [] -> URI.decodeURIComponent url = Ok d ->
  snd (handle BASE_URL env (GetClick (Some id) (Some url) rq) st) = Redirect d.
Proof.
  intros Hid Hurl Hd.
  destruct id as [|i id]; [done|]. destruct url as [|u url]; [done|].
  unfold handle, handler, clickHandler,
    tryCatch, bind, ret, liftR, findOne, updateOne.
  change (strOf (Some (i :: id))) with (i :: id).
  change (strOf (Some (u :: url))) with (u :: url).
  cbn [truthy negb orb]. rewrite Hd.
  destruct (findOneThrows env); [done|].
  destruct (st !! (i :: id)); [|done].
  by destruct (updateOneThrows env).
Qed.

(** When the call throws, nothing catches the exception: the handler
    answers neither with a redirect nor with an error page. *)
Lemma click_undecodable (env : Env) (id url : JSString) (e : JSError)
    (rq : Req) (st : gmap (list N) Tracking) :
  id <> [] -> url <> [] -> URI.decodeURIComponent url = Throw e ->
  snd (handle BASE_URL env (GetClick (Some id) (Some url) rq) st) = Uncaught e.
Proof.
  intros Hid Hurl Hd.
  destruct id as [|i id]; [done|]. destruct url as [|u url]; [done|].
  unfold handle, handler, clickHandler,
    tryCatch, bind, ret, liftR, findOne, updateOne.
  change (strOf (Some (i :: id))) with (i :: id).
  change (strOf (Some (u :: url))) with (u :: url).
  cbn [truthy negb orb]. rewrite Hd.
  destruct (findOneThrows env); [done|].
  destruct (st !! (i :: id)); [|done].
  by destruct (updateOneThrows env).
Qed.

(** For an href without "%", the click endpoint invoked with the href
    redirects to the href. *)
Lemma click_round_trip_plain (env : Env) (id url : JSString) (rq : Req)
    (st : gmap (list N) Tracking) :
  id <> [] -> url <> [] -> Forall (fun c => c <> URI.percent) url ->
  snd (handle BASE_URL env (GetClick (Some id) (Some url) rq) st)
  = Redirect url.
Proof.
  intros Hid Hurl Hplain. apply click_response; [done..|].
  by apply decodeURIComponent_plain.
Qed.

End ClickFacts.

(** ** Properties of the state machine *)

Section TrackerClaims.
Import Tracker Engagement Lifecycle.

Variable BASE_URL : JSString.

(** C3: [method] is set exactly once, by the first engagement event, to
    the channel of that event. A record created by a send request has
    [method] null for as long as no request engages it; after the first
    engagement [ev] it is PIXEL if [ev] is a pixel fetch and CLICK if it
    is a click, and stays so whatever requests follow (engagements of
    either channel included). *)
Theorem C3_method_set_by_first_engagement
    (st0 : gmap (list N) Tracking) (t : JSString)
    (send : Env * Request) (idle : list (Env * Request))
    (ev : Env * Request) (later : list (Env * Request)) :
  st0 !! t = None -> creates t send = true ->
  Forall (fun op => engages t op = false) idle ->
  engages t ev = true ->
  (exists r0,
      run BASE_URL idle (step BASE_URL st0 send) !! t = Some r0
      /\ method r0 = None)
  /\ (exists r,
        run BASE_URL (idle ++ ev :: later) (step BASE_URL st0 send) !! t
          = Some r
        /\ method r = Some (channel ev)).
Proof.
  intros Hnone Hsend Hidle Hev.
  destruct (lifecycle BASE_URL _ _ _ _ _ later Hnone Hsend Hidle Hev)
    as (r0 & (_ & Hm & _) & _ & Hr0 & r & Hr & (_ & _ & Hmr)).
  split; [exists r0|exists r]; auto.
Qed.

(** C4: on a record created by a send request, [openCount] after any
    sequence of requests is the number of engagement events in it; after
    a sequence of N engagement events, pixel fetches and clicks in any
    order, it is exactly N. *)
Theorem C4_openCount_counts_engagements
    (st0 : gmap (list N) Tracking) (t : JSString)
    (send : Env * Request) (ops : list (Env * Request)) :
  st0 !! t = None -> creates t send = true ->
  exists r,
    run BASE_URL ops (step BASE_URL st0 send) !! t = Some r
    /\ openCount r = Z.of_nat (engagements t ops)
    /\ (Forall (fun op => engages t op = true) ops ->
        openCount r = Z.of_nat (length ops)).
Proof.
  intros Hnone Hsend.
  destruct (step_created BASE_URL _ _ _ Hnone Hsend)
    as (r0 & Hr0 & (_ & _ & _ & Hc)).
  exists (foldl (after t) r0 ops).
  split; [by apply run_lookup|].
  assert (Hn : openCount (foldl (after t) r0 ops)
               = Z.of_nat (engagements t ops)).
  { rewrite foldl_after_openCount, Hc. lia. }
  split; [done|]. intros Hall. by rewrite Hn, engagements_all.
Qed.

(** C5: a record created by a send request has status SENT and
    [openedAt] null, and keeps both for as long as no request engages
    it; the first engagement [ev] sets status OPENED and [openedAt] to
    the time of [ev], and no later request sets the status back or
    changes [openedAt]. *)
Theorem C5_status_and_openedAt_set_once
    (st0 : gmap (list N) Tracking) (t : JSString)
    (send : Env * Request) (idle : list (Env * Request))
    (ev : Env * Request) (later : list (Env * Request)) :
  st0 !! t = None -> creates t send = true ->
  Forall (fun op => engages t op = false) idle ->
  engages t ev = true ->
  (exists r0,
      step BASE_URL st0 send !! t = Some r0
      /\ run BASE_URL idle (step BASE_URL st0 send) !! t = Some r0
      /\ status r0 = SENT /\ openedAt r0 = None)
  /\ (exists r,
        run BASE_URL (idle ++ ev :: later) (step BASE_URL st0 send) !! t
          = Some r
        /\ status r = OPENED /\ openedAt r = Some (now (fst ev))).
Proof.
  intros Hnone Hsend Hidle Hev.
  destruct (lifecycle BASE_URL _ _ _ _ _ later Hnone Hsend Hidle Hev)
    as (r0 & (Hs & _ & Ho & _) & Hr0 & Hr0' & r & Hr & (Hsr & Hor & _)).
  split; [exists r0|exists r]; auto.
Qed.

Lemma engage_coherent op r : coherent r -> coherent (engage op r).
Proof.
  intros [H1 H2]. unfold coherent, engage.
  destruct op as [env [b|id url rq|id rq]]; cbn [fst snd]; [done| |].
  - unfold applyUpdate, clickUpdate; simpl.
    destruct (status r); simpl; split; split; intros _; done.
  - unfold pixelUpdate. destruct (status r) eqn:Hs.
    + unfold applyUpdate; simpl. split; split; intros _; done.
    + unfold applyUpdate; simpl. rewrite Hs. done.
Qed.

(** C6: in every store the server reaches from the empty collection,
    every record satisfies status = OPENED iff openedAt is not null iff
    method is not null. *)
Theorem C6_reachable_records_coherent
    (st : gmap (list N) Tracking) (t : JSString) (r : Tracking) :
  reachable BASE_URL st -> st !! t = Some r -> coherent r.
Proof.
  intros Hreach. revert t r.
  induction Hreach as [|st op _ IH]; intros t r Hr.
  - by rewrite lookup_empty in Hr.
  - rewrite step_lookup in Hr. destruct (st !! t) as [r0|] eqn:Ht.
    + inversion Hr; subst. unfold after.
      destruct (engages t op); [apply engage_coherent|]; eauto.
    + apply created_fresh in Hr as (Hs & Hm & Ho & _).
      unfold coherent. rewrite Hs, Hm, Ho. split; split; done.
Qed.

(** C7 (amended): a pixel fetch is answered with the fixed PNG and
    status 200, and a click whose id is not empty and whose url is not
    empty and is accepted by decodeURIComponent is answered with a
    redirect to the decoded url, also when no record has the identifier
    or the store rejects the lookup or the update; in those cases the
    store is left as it was. A click whose id is empty is answered
    400. *)
Theorem C7_tracking_failures_absorbed
    (env : Env) (id url d : JSString) (rq : Req)
    (st : gmap (list N) Tracking) :
  id <> [] -> url <> [] -> decodes url d ->
  snd (handle BASE_URL env (GetPixel id rq) st) = pixelResponse
  /\ snd (handle BASE_URL env (GetClick (Some id) (Some url) rq) st)
     = Redirect d
  /\ snd (handle BASE_URL env (GetClick (Some []) (Some url) rq) st)
     = Send 400 [] (BText (lit "Missing parameters"))
  /\ (st !! id = None \/ findOneThrows env = true
      \/ updateOneThrows env = true ->
      fst (handle BASE_URL env (GetPixel id rq) st) = st
      /\ fst (handle BASE_URL env (GetClick (Some id) (Some url) rq) st) = st).
Proof.
  intros Hid Hurl Hd. unfold decodes in Hd.
  split; [|split; [by apply click_response|split]].
  - unfold handle, handler, pixelHandler,
      tryCatch, bind, ret, liftR, findOne, updateOne.
    destruct (findOneThrows env); [done|].
    destruct (st !! id); [|done].
    by destruct (updateOneThrows env).
  - destruct url; done.
  - intros H.
    unfold handle, handler, clickHandler, pixelHandler,
      tryCatch, bind, ret, liftR, findOne, updateOne.
    destruct id as [|i id]; [done|]. destruct url as [|u url]; [done|].
    change (strOf (Some (i :: id))) with (i :: id).
    change (strOf (Some (u :: url))) with (u :: url).
    cbn [truthy negb orb]. rewrite Hd.
    destruct (findOneThrows env) eqn:Hf; [done|].
    destruct (st !! (i :: id)) eqn:Hl; [|done].
    destruct (updateOneThrows env) eqn:Hu; [done|].
    destruct H as [H|[H|H]]; discriminate.
Qed.

End TrackerClaims.

(** ** decodeURIComponent undoes encodeURIComponent *)

Section UriRoundTrip.
Import URI Ranges.

Lemma forallRange_spec f bits : forall lo x,
  forallRange f bits lo = true ->
  lo <= x < lo + 2 ^ N.of_nat bits -> f x = true.
Proof.
  induction bits as [|b IH]; intros lo x H Hx.
  - simpl in *. replace x with lo by lia. done.
  - cbn [forallRange] in H. apply andb_true_iff in H as [H1 H2].
    rewrite Nat2N.inj_succ, N.pow_succ_r' in Hx.
    destruct (N.lt_ge_cases x (lo + 2 ^ N.of_nat b)).
    + apply (IH lo); [done|lia].
    + apply (IH (lo + 2 ^ N.of_nat b)); [done|lia].
Qed.

Lemma bmpDecodes_all cp : bmpDecodes cp = true.
Proof.
  destruct (N.lt_ge_cases cp (2 ^ 16)) as [Hlt|Hge].
  - apply (forallRange_spec bmpDecodes 16 0); [by vm_compute|].
    change (N.of_nat 16) with 16. lia.
  - unfold bmpDecodes.
    assert ((cp <? 0x10000) = false) as ->; [|done].
    apply N.ltb_ge. change (2 ^ 16) with 65536 in Hge. lia.
Qed.

Lemma octetUnescapes_all b : octetUnescapes b = true.
Proof.
  destruct (N.lt_ge_cases b (2 ^ 8)) as [Hlt|Hge].
  - apply (forallRange_spec octetUnescapes 8 0); [by vm_compute|].
    change (N.of_nat 8) with 8. lia.
  - unfold octetUnescapes.
    assert ((b <? 256) = false) as ->; [|done].
    apply N.ltb_ge. change (2 ^ 8) with 256 in Hge. lia.
Qed.

Lemma contOctet_all x : contOctet x = true.
Proof.
  destruct (N.lt_ge_cases x (2 ^ 6)) as [Hlt|Hge].
  - apply (forallRange_spec contOctet 6 0); [by vm_compute|].
    change (N.of_nat 6) with 6. lia.
  - unfold contOctet.
    assert ((x <? 64) = false) as ->; [|done].
    apply N.ltb_ge. change (2 ^ 6) with 64 in Hge. lia.
Qed.

Lemma leadOctet4_all x : leadOctet4 x = true.
Proof.
  destruct (N.lt_ge_cases x (2 ^ 3)) as [Hlt|Hge].
  - apply (forallRange_spec leadOctet4 3 0); [by vm_compute|].
    change (N.of_nat 3) with 3. lia.
  - unfold leadOctet4.
    assert ((x <? 8) = false) as ->; [|done].
    apply N.ltb_ge. change (2 ^ 3) with 8 in Hge. lia.
Qed.

Lemma contOctet_spec x :
  x < 64 ->
  N.lor 0x80 x = 128 + x /\ contBits (N.lor 0x80 x) = x
  /\ isCont (N.lor 0x80 x) = true.
Proof.
  intros Hx. pose proof (contOctet_all x) as H. unfold contOctet in H.
  apply N.ltb_lt in Hx. rewrite Hx in H.
  apply andb_true_iff in H as [H H3]. apply andb_true_iff in H as [H1 H2].
  apply N.eqb_eq in H1, H2. done.
Qed.

Lemma leadOctet4_spec x :
  x < 8 -> N.lor 0xF0 x = 240 + x /\ N.land (N.lor 0xF0 x) 0x07 = x.
Proof.
  intros Hx. pose proof (leadOctet4_all x) as H. unfold leadOctet4 in H.
  apply N.ltb_lt in Hx. rewrite Hx in H.
  apply andb_true_iff in H as [H1 H2]. apply N.eqb_eq in H1, H2. done.
Qed.

Lemma low6 x : N.land x 0x3F = x mod 64 /\ N.land x 0x3F < 64.
Proof.
  change 0x3F with (N.ones 6). rewrite N.land_ones.
  change (2 ^ 6) with 64. split; [done|]. by apply N.mod_lt.
Qed.

(** A code point of the basic plane that is no surrogate. *)
Lemma bmp_decodes cp :
  cp < 0x10000 -> isSurrogate cp = false ->
  Forall (fun b => b < 256) (utf8 cp)
  /\ decodeItems (map Octet (utf8 cp)) = Ok [cp].
Proof.
  intros Hcp Hs. pose proof (bmpDecodes_all cp) as H. unfold bmpDecodes in H.
  apply N.ltb_lt in Hcp. rewrite Hcp, Hs in H. simpl in H.
  apply andb_true_iff in H as [H1 H2]. split.
  - apply Forall_forall. intros b Hb.
    rewrite forallb_forall in H1. apply N.ltb_lt, H1.
    by apply list_elem_of_In.
  - destruct (decodeItems _); [|done]. by apply bool_decide_eq_true in H2 as ->.
Qed.

(** A code point of the other planes. *)
Lemma astral_decodes cp :
  0x10000 <= cp < 0x110000 ->
  Forall (fun b => b < 256) (utf8 cp)
  /\ decodeItems (map Octet (utf8 cp)) = Ok (utf16 cp).
Proof.
  intros Hcp. unfold utf8.
  assert ((cp <? 0x80) = false) as -> by (apply N.ltb_ge; lia).
  assert ((cp <? 0x800) = false) as -> by (apply N.ltb_ge; lia).
  assert ((cp <? 0x10000) = false) as -> by (apply N.ltb_ge; lia).
  rewrite !N.shiftr_div_pow2.
  change (2 ^ 18) with 262144. change (2 ^ 12) with 4096.
  change (2 ^ 6) with 64.
  destruct (low6 (cp / 4096)) as [E1 B1]. destruct (low6 (cp / 64)) as [E2 B2].
  destruct (low6 cp) as [E3 B3].
  assert (B0 : cp / 262144 < 8).
  { apply N.Div0.div_lt_upper_bound. lia. }
  destruct (leadOctet4_spec _ B0) as [L0 L0'].
  destruct (contOctet_spec _ B1) as (L1 & C1 & K1).
  destruct (contOctet_spec _ B2) as (L2 & C2 & K2).
  destruct (contOctet_spec _ B3) as (L3 & C3 & K3).
  split.
  { rewrite L0, L1, L2, L3. repeat constructor; lia. }
  cbn [map decodeItems].
  rewrite C1, C2, C3, K1, K2, K3, L0'. rewrite L0.
  assert ((240 + cp / 262144 <? 0x80) = false) as -> by (apply N.ltb_ge; lia).
  assert ((240 + cp / 262144 <? 0xC0) = false) as -> by (apply N.ltb_ge; lia).
  assert ((240 + cp / 262144 <? 0xE0) = false) as -> by (apply N.ltb_ge; lia).
  assert ((240 + cp / 262144 <? 0xF0) = false) as -> by (apply N.ltb_ge; lia).
  assert ((240 + cp / 262144 <? 0xF8) = true) as -> by (apply N.ltb_lt; lia).
  rewrite !N.shiftl_mul_pow2.
  change (2 ^ 18) with 262144. change (2 ^ 12) with 4096.
  change (2 ^ 6) with 64.
  assert (Hsum : cp / 262144 * 262144 + N.land (cp / 4096) 0x3F * 4096
                 + N.land (cp / 64) 0x3F * 64 + N.land cp 0x3F = cp).
  { rewrite E1, E2, E3.
    pose proof (N.div_mod cp 64 ltac:(lia)).
    pose proof (N.mod_lt cp 64 ltac:(lia)).
    pose proof (N.div_mod (cp / 64) 64 ltac:(lia)).
    pose proof (N.mod_lt (cp / 64) 64 ltac:(lia)).
    pose proof (N.div_mod (cp / 64 / 64) 64 ltac:(lia)).
    pose proof (N.mod_lt (cp / 64 / 64) 64 ltac:(lia)).
    replace (cp / 4096) with (cp / 64 / 64)
      by (rewrite N.Div0.div_div; done).
    replace (cp / 262144) with (cp / 64 / 64 / 64)
      by (rewrite !N.Div0.div_div; done).
    lia. }
  rewrite Hsum.
  assert ((0x10000 <=? cp) = true) as -> by (apply N.leb_le; lia).
  assert ((cp <=? 0x10FFFF) = true) as -> by (apply N.leb_le; lia).
  simpl. by rewrite app_nil_r.
Qed.


(** Decoding goes through a string piece by piece. *)
Lemma unescapeItems_app l : forall a r,
  unescapeItems l = Ok a ->
  unescapeItems (l ++ r) = (let! b := unescapeItems r in Ok (a ++ b)).
Proof.
  induction l as [l IH] using (induction_ltof1 _ (@length N)).
  unfold ltof in IH. intros a r H.
  destruct l as [|c l1]; simpl in H.
  { inversion H; subst. simpl. by destruct (unescapeItems r). }
  simpl. destruct (c =? percent).
  - destruct l1 as [|h1 [|h2 l2]]; try discriminate. simpl.
    destruct (hexValue h1), (hexValue h2); try discriminate.
    destruct (unescapeItems l2) as [a2|] eqn:H2; [|discriminate].
    inversion H; subst.
    rewrite (IH l2 ltac:(simpl; lia) a2 r H2).
    by destruct (unescapeItems r).
  - destruct (unescapeItems l1) as [a1|] eqn:H1; [|discriminate].
    inversion H; subst.
    rewrite (IH l1 ltac:(simpl; lia) a1 r H1).
    by destruct (unescapeItems r).
Qed.

Lemma decodeItems_app l : forall a r,
  decodeItems l = Ok a ->
  decodeItems (l ++ r) = (let! b := decodeItems r in Ok (a ++ b)).
Proof.
  induction l as [l IH] using (induction_ltof1 _ (@length Item)).
  unfold ltof in IH. intros a r H.
  assert (Hnext : forall (l' : list Item) (pre a' : JSString),
            (length l' < length l)%nat -> decodeItems l' = Ok a' ->
            (let! x := decodeItems (l' ++ r) in Ok (pre ++ x))
            = (let! b := decodeItems r in Ok ((pre ++ a') ++ b))).
  { intros l' pre a' Hlen H'. rewrite (IH l' Hlen a' r H').
    destruct (decodeItems r); simpl; [|done]. by rewrite app_assoc. }
  destruct l as [|[c|b] l1]; simpl in H.
  { inversion H; subst. simpl. by destruct (decodeItems r). }
  { destruct (decodeItems l1) as [a1|] eqn:H1; [|discriminate].
    inversion H; subst. simpl.
    apply (Hnext l1 [c] a1); [simpl; lia|done]. }
  simpl. destruct (b <? 0x80).
  { destruct (decodeItems l1) as [a1|] eqn:H1; [|discriminate].
    inversion H; subst.
    apply (Hnext l1 [b] a1); [simpl; lia|done]. }
  destruct (b <? 0xC0); [discriminate|].
  destruct (b <? 0xE0).
  { destruct l1 as [|[|b1] l2]; try discriminate. simpl.
    destruct (isCont b1 && _); [|discriminate].
    destruct (decodeItems l2) as [a2|] eqn:H2; [|discriminate].
    inversion H; subst.
    apply (Hnext l2 _ a2); [simpl; lia|done]. }
  destruct (b <? 0xF0).
  { destruct l1 as [|[|b1] [|[|b2] l3]]; try discriminate. simpl.
    destruct (isCont b1 && _ && _ && _); [|discriminate].
    destruct (decodeItems l3) as [a3|] eqn:H3; [|discriminate].
    inversion H; subst.
    apply (Hnext l3 _ a3); [simpl; lia|done]. }
  destruct (b <? 0xF8); [|discriminate].
  destruct l1 as [|[|b1] [|[|b2] [|[|b3] l4]]]; try discriminate. simpl.
  destruct (isCont b1 && _ && _ && _ && _); [|discriminate].
  destruct (decodeItems l4) as [a4|] eqn:H4; [|discriminate].
  inversion H; subst.
  apply (Hnext l4 _ a4); [simpl; lia|done].
Qed.

(** The escapes of octets are read back as these octets. *)
Lemma unescape_escapeOctets bs :
  Forall (fun b => b < 256) bs ->
  unescapeItems (escapeOctets bs) = Ok (map Octet bs).
Proof.
  induction 1 as [|b bs Hb _ IH]; [done|].
  unfold escapeOctets in *. cbn [map concat].
  assert (Hone : unescapeItems (escapeOctet b) = Ok [Octet b]).
  { pose proof (octetUnescapes_all b) as H. unfold octetUnescapes in H.
    apply N.ltb_lt in Hb. rewrite Hb in H.
    destruct (unescapeItems (escapeOctet b)) as [[|[|b'] [|]]|];
      try discriminate.
    by apply N.eqb_eq in H as ->. }
  rewrite (unescapeItems_app _ _ _ Hone), IH. done.
Qed.

(** What [decodeURIComponent] makes of the escapes of a code point in
    front of a string it decodes. *)
Lemma decode_escaped cp units e s :
  Forall (fun b => b < 256) (utf8 cp) ->
  decodeItems (map Octet (utf8 cp)) = Ok units ->
  decodeURIComponent e = Ok s ->
  decodeURIComponent (escapeOctets (utf8 cp) ++ e) = Ok (units ++ s).
Proof.
  intros Hb Hd He. unfold decodeURIComponent in *.
  destruct (unescapeItems e) as [its|] eqn:Hits; [|discriminate].
  simpl in He.
  rewrite (unescapeItems_app _ _ _ (unescape_escapeOctets _ Hb)), Hits.
  simpl. rewrite (decodeItems_app _ _ _ Hd), He. done.
Qed.

(** The code point of a surrogate pair has the pair as its code units. *)
Lemma utf16_pair c d :
  isLeadSurrogate c = true -> isTrailSurrogate d = true ->
  0x10000 <= (c - 0xD800) * 0x400 + (d - 0xDC00) + 0x10000 < 0x110000
  /\ utf16 ((c - 0xD800) * 0x400 + (d - 0xDC00) + 0x10000) = [c; d].
Proof.
  unfold isLeadSurrogate, isTrailSurrogate.
  rewrite !andb_true_iff, !N.leb_le. intros [Hc1 Hc2] [Hd1 Hd2].
  split; [lia|]. unfold utf16.
  assert (((c - 0xD800) * 0x400 + (d - 0xDC00) + 0x10000 <? 0x10000) = false)
    as -> by (apply N.ltb_ge; lia).
  replace ((c - 0xD800) * 0x400 + (d - 0xDC00) + 0x10000 - 0x10000)
    with ((d - 0xDC00) + (c - 0xD800) * 1024) by lia.
  rewrite N.shiftr_div_pow2. change 0x3FF with (N.ones 10).
  rewrite N.land_ones. change (2 ^ 10) with 1024.
  rewrite N.div_add by lia. rewrite N.Div0.mod_add.
  rewrite N.div_small, N.mod_small by lia.
  f_equal; [lia|]. f_equal. lia.
Qed.

Lemma uriUnescaped_not_percent c : uriUnescaped c = true -> c <> percent.
Proof. intros H ->. by vm_compute in H. Qed.

(** [decodeURIComponent] returns the string [encodeURIComponent] was
    given, for every string of code units the latter accepts. *)
Lemma decode_encode s : forall e,
  Forall (fun c => c < 0x10000) s ->
  encodeURIComponent s = Ok e -> decodeURIComponent e = Ok s.
Proof.
  induction s as [s IH] using (induction_ltof1 _ (@length N)).
  unfold ltof in IH. intros e Hs He.
  destruct s as [|c s1]; simpl in He.
  { inversion He; subst. done. }
  inversion Hs as [|? ? Hc Hs1]; subst.
  destruct (uriUnescaped c) eqn:Hu.
  { destruct (encodeURIComponent s1) as [e1|] eqn:H1; [|discriminate].
    inversion He; subst.
    pose proof (IH s1 ltac:(simpl; lia) e1 Hs1 H1) as Hd.
    apply uriUnescaped_not_percent, N.eqb_neq in Hu.
    unfold decodeURIComponent in *. simpl. rewrite Hu.
    destruct (unescapeItems e1); [|discriminate]. simpl in *.
    by rewrite Hd. }
  destruct (isTrailSurrogate c) eqn:Ht; [discriminate|].
  destruct (isLeadSurrogate c) eqn:Hl.
  - destruct s1 as [|d s2]; [discriminate|].
    destruct (isTrailSurrogate d) eqn:Htd; [|discriminate].
    destruct (encodeURIComponent s2) as [e2|] eqn:H2; [|discriminate].
    inversion He; subst.
    inversion Hs1; subst.
    pose proof (IH s2 ltac:(simpl; lia) e2 ltac:(done) H2) as Hd.
    destruct (utf16_pair c d Hl Htd) as [Hcp Hpair].
    destruct (astral_decodes _ Hcp) as [Hb Hdec]. rewrite Hpair in Hdec.
    by rewrite (decode_escaped _ _ _ _ Hb Hdec Hd).
  - destruct (encodeURIComponent s1) as [e1|] eqn:H1; [|discriminate].
    inversion He; subst.
    pose proof (IH s1 ltac:(simpl; lia) e1 Hs1 H1) as Hd.
    assert (Hns : isSurrogate c = false).
    { unfold isSurrogate, isLeadSurrogate, isTrailSurrogate in *.
      rewrite andb_false_iff, !N.leb_gt in *. lia. }
    destruct (bmp_decodes c Hc Hns) as [Hb Hdec].
    by rewrite (decode_escaped _ _ _ _ Hb Hdec Hd).
Qed.

End UriRoundTrip.

Section LinkRoundTrip.
Import Tracker.

Variable BASE_URL : JSString.

(** The round trip of an href without "%": the url parameter the
    rewriter writes is decoded once to the href, and the click endpoint,
    given the href, redirects to it. *)
Lemma link_round_trip_plain (env : Env) (id u e : JSString) (rq : Req)
    (st : gmap (list N) Tracking) :
  id <> [] -> u <> [] ->
  Forall (fun c => c < 0x10000) u -> Forall (fun c => c <> URI.percent) u ->
  URI.encodeURIComponent u = Ok e ->
  URI.decodeURIComponent e = Ok u
  /\ snd (handle BASE_URL env (GetClick (Some id) (Some u) rq) st)
     = Redirect u.
Proof.
  intros Hid Hu Hunits Hplain He. split.
  - by apply decode_encode.
  - by apply click_round_trip_plain.
Qed.

End LinkRoundTrip.

(** ** Concrete inputs *)

Section Concrete.
Import Regex Shape Rewriter Tracker Engagement Lifecycle Sample.

(** The pixel is a PNG file of width 1 and height 1: the signature, the
    IHDR chunk with both dimensions 1, and 68 bytes in all. *)
Lemma png_one_by_one :
  take 8 png = [137; 80; 78; 71; 13; 10; 26; 10]
  /\ take 12 (drop 12 png) = lit "IHDR" ++ [0; 0; 0; 1; 0; 0; 0; 1]
  /\ length png = 68%nat.
Proof. by vm_compute. Qed.

(** The scenario: the message for abc123 carries the rewritten link and
    the pixel; after the pixel fetch at 2000 and the click at 3000 the
    record is OPENED by PIXEL at 2000 with two opens. *)
Lemma scenario :
  rewriteLinksForTracking localhost
    (jsq "Hi<br/><a href=`https://x.com`>link</a>") abc123
  = Ok (jsq "Hi<br/><a href=`http://localhost:4000/api/click?id=abc123&url=https%3A%2F%2Fx.com`>link</a>")
  /\ run localhost [sendHello; pixelAt 2000] ∅ !! abc123 = Some openedByPixel
  /\ exists r,
       run localhost [sendHello; pixelAt 2000; clickAt 3000] ∅ !! abc123
         = Some r
       /\ openedWith 2000 PIXEL r /\ openCount r = 2%Z.
Proof.
  split; [by vm_compute|]. split; [by vm_compute|].
  eexists. split; [by vm_compute|]. by vm_compute.
Qed.

(** C1: the rewriter drops what stands between [<a] and the matched
    [href]: for an anchor with a class attribute before its href, the
    output anchor has the rewritten href and the content, and the class
    attribute is gone. *)
Lemma C1_leading_attributes_dropped :
  rewriteLinksForTracking localhost
    (jsq "<a class=`btn` href=`https://x.com`>link</a>") abc123
  = Ok (jsq "<a href=`http://localhost:4000/api/click?id=abc123&url=https%3A%2F%2Fx.com`>link</a>")
  /\ includes
       (jsq "<a href=`http://localhost:4000/api/click?id=abc123&url=https%3A%2F%2Fx.com`>link</a>")
       (jsq "class=`btn`") = false.
Proof. by vm_compute. Qed.

(** C2: for the href https://x.com/?q=a%26b the rewritten anchor carries
    the url parameter https%3A%2F%2Fx.com%2F%3Fq%3Da%2526b, whose single
    decoding is the href again; the click handler, given that decoded
    parameter, decodes it a second time and redirects to
    https://x.com/?q=a&b, which is not the href. *)
Lemma C2_second_decoding_changes_target :
  rewriteLinksForTracking localhost
    (jsq "<a href=`https://x.com/?q=a%26b`>link</a>") abc123
  = Ok (jsq "<a href=`http://localhost:4000/api/click?id=abc123&url=https%3A%2F%2Fx.com%2F%3Fq%3Da%2526b`>link</a>")
  /\ URI.decodeURIComponent (lit "https%3A%2F%2Fx.com%2F%3Fq%3Da%2526b")
     = Ok (lit "https://x.com/?q=a%26b")
  /\ snd (handle localhost (at_ 3000)
            (GetClick (Some abc123) (Some (lit "https://x.com/?q=a%26b")) browser)
            ∅)
     = Redirect (lit "https://x.com/?q=a&b")
  /\ lit "https://x.com/?q=a&b" <> lit "https://x.com/?q=a%26b".
Proof. by vm_compute. Qed.

(** An href with a "%" that starts no escape, such as
    https://x.com/?discount=100%, gets no redirect at all: the handler
    throws inside and again after its catch. *)
Lemma click_percent_sign_uncaught :
  snd (handle localhost (at_ 3000)
         (GetClick (Some abc123) (Some (lit "https://x.com/?discount=100%")) browser)
         ∅)
  = Uncaught URIError.
Proof. by vm_compute. Qed.

(** A click at 2000 on the record of the scenario, after requests that do
    not engage it and before a pixel fetch and a second click: the method
    is CLICK. *)
Lemma C3_witness :
  (exists r0,
      run localhost idleRequests (step localhost ∅ sendHello) !! abc123
        = Some r0
      /\ method r0 = None)
  /\ (exists r,
        run localhost (idleRequests ++ clickAt 2000 :: [pixelAt 3000; clickAt 4000])
          (step localhost ∅ sendHello) !! abc123 = Some r
        /\ method r = Some CLICK).
Proof.
  apply (C3_method_set_by_first_engagement localhost ∅ abc123 sendHello
           idleRequests (clickAt 2000) [pixelAt 3000; clickAt 4000]).
  - reflexivity.
  - vm_compute. reflexivity.
  - repeat constructor.
  - vm_compute. reflexivity.
Defined.

(** The other order: a pixel fetch, then a click, leaves PIXEL. *)
Lemma pixel_then_click_keeps_PIXEL :
  exists r,
    run localhost [sendHello; pixelAt 2000; clickAt 3000] ∅ !! abc123 = Some r
    /\ method r = Some PIXEL.
Proof. eexists. split; by vm_compute. Qed.

(** Three engagement events on the record of the scenario. *)
Lemma C4_witness :
  exists r,
    run localhost [pixelAt 2000; clickAt 3000; pixelAt 4000]
      (step localhost ∅ sendHello) !! abc123 = Some r
    /\ openCount r
       = Z.of_nat (engagements abc123 [pixelAt 2000; clickAt 3000; pixelAt 4000])
    /\ (Forall (fun op => engages abc123 op = true)
          [pixelAt 2000; clickAt 3000; pixelAt 4000] ->
        openCount r = Z.of_nat (length [pixelAt 2000; clickAt 3000; pixelAt 4000])).
Proof.
  apply (C4_openCount_counts_engagements localhost ∅ abc123 sendHello
           [pixelAt 2000; clickAt 3000; pixelAt 4000]).
  - reflexivity.
  - vm_compute. reflexivity.
Defined.

(** A pixel fetch at 2000 on the record of the scenario, after requests
    that do not engage it and before a click and a second pixel fetch. *)
Lemma C5_witness :
  (exists r0,
      step localhost ∅ sendHello !! abc123 = Some r0
      /\ run localhost idleRequests (step localhost ∅ sendHello) !! abc123
         = Some r0
      /\ status r0 = SENT /\ openedAt r0 = None)
  /\ (exists r,
        run localhost (idleRequests ++ pixelAt 2000 :: [clickAt 3000; pixelAt 4000])
          (step localhost ∅ sendHello) !! abc123 = Some r
        /\ status r = OPENED /\ openedAt r = Some 2000%Z).
Proof.
  apply (C5_status_and_openedAt_set_once localhost ∅ abc123 sendHello
           idleRequests (pixelAt 2000) [clickAt 3000; pixelAt 4000]).
  - reflexivity.
  - vm_compute. reflexivity.
  - repeat constructor.
  - vm_compute. reflexivity.
Defined.

(** The record of the scenario after its first pixel fetch. *)
Lemma C6_witness : coherent openedByPixel.
Proof.
  apply (C6_reachable_records_coherent localhost
           (step localhost (step localhost ∅ sendHello) (pixelAt 2000))
           abc123 openedByPixel).
  - apply reach_step, reach_step, reach_empty.
  - vm_compute. reflexivity.
Defined.

(** C7: a click whose id is empty is answered 400, not with a
    redirect. *)
Lemma C7_empty_id_rejected :
  snd (handle localhost (at_ 3000)
         (GetClick (Some []) (Some (lit "https://x.com")) browser) ∅)
  = Send 400 [] (BText (lit "Missing parameters")).
Proof. reflexivity. Qed.

(** A pixel fetch and a click while the store rejects every lookup. *)
Lemma C7_witness :
  snd (handle localhost (storeDownAt 3000) (GetPixel abc123 browser)
         oneRecord) = pixelResponse
  /\ snd (handle localhost (storeDownAt 3000)
            (GetClick (Some abc123) (Some (lit "https%3A%2F%2Fx.com")) browser)
            oneRecord)
     = Redirect (lit "https://x.com")
  /\ snd (handle localhost (storeDownAt 3000)
            (GetClick (Some []) (Some (lit "https%3A%2F%2Fx.com")) browser)
            oneRecord)
     = Send 400 [] (BText (lit "Missing parameters"))
  /\ (oneRecord !! abc123 = None
      \/ findOneThrows (storeDownAt 3000) = true
      \/ updateOneThrows (storeDownAt 3000) = true ->
      fst (handle localhost (storeDownAt 3000) (GetPixel abc123 browser)
             oneRecord) = oneRecord
      /\ fst (handle localhost (storeDownAt 3000)
                (GetClick (Some abc123) (Some (lit "https%3A%2F%2Fx.com")) browser)
                oneRecord)
         = oneRecord).
Proof.
  apply (C7_tracking_failures_absorbed localhost (storeDownAt 3000) abc123
           (lit "https%3A%2F%2Fx.com") (lit "https://x.com") browser
           oneRecord).
  - discriminate.
  - discriminate.
  - vm_compute. reflexivity.
Defined.

(** The mailto anchor of [twoLinks]. *)
Lemma C8_witness :
  (exists lead attributes content,
      Anchor mailtoMatch lead (lit "mailto:x@y.com") attributes content)
  /\ twoLinks = concat (map source beforeMailto) ++ matched mailtoMatch
                ++ concat (map source afterMailto)
  /\ rewriteMatch localhost abc123 mailtoMatch = Ok (matched mailtoMatch)
  /\ rewriteLinksForTracking localhost twoLinks abc123 =
     (let! o1 := renderAll (rewriteMatch localhost abc123) beforeMailto in
      let! o2 := renderAll (rewriteMatch localhost abc123) afterMailto in
      Ok (o1 ++ matched mailtoMatch ++ o2)).
Proof.
  apply (C8_excluded_anchor_unchanged localhost twoLinks abc123
           beforeMailto afterMailto mailtoMatch (lit "mailto:x@y.com")).
  - vm_compute. reflexivity.
  - reflexivity.
  - vm_compute. reflexivity.
Defined.

(** The second anchor of [twoLinks]. *)
Lemma C9_witness :
  exists lead attributes content,
    Anchor linkMatch lead (lit "https://x.com") attributes content
    /\ rewriteLinksForTracking localhost twoLinks abc123 =
       (let! o1 := renderAll (rewriteMatch localhost abc123) beforeLink in
        let! e := URI.encodeURIComponent (lit "https://x.com") in
        let! o2 := renderAll (rewriteMatch localhost abc123) [] in
        Ok (o1
            ++ (lit "<a href=" ++ [dquote]
                ++ (localhost ++ lit "/api/click?id=" ++ abc123
                    ++ lit "&url=" ++ e)
                ++ [dquote] ++ attributes ++ lit ">" ++ content ++ lit "</a>")
            ++ o2)).
Proof.
  apply (C9_rewritten_href_template localhost twoLinks abc123
           beforeLink [] linkMatch (lit "https://x.com")).
  - vm_compute. reflexivity.
  - reflexivity.
  - vm_compute. reflexivity.
Defined.

(** What the rewrite makes of [twoLinks]. *)
Lemma twoLinks_rewritten :
  rewriteLinksForTracking localhost twoLinks abc123
  = Ok (jsq "Write <a href=`mailto:x@y.com`>me</a> or <a href=`http://localhost:4000/api/click?id=abc123&url=https%3A%2F%2Fx.com` rel=`nofollow`>link</a>").
Proof. by vm_compute. Qed.

(** C10: an anchor whose href is single-quoted is rewritten all the same
    when another attribute holds a white-space character followed by
    [href=Q]: the match takes that text for the href and the output
    anchor has lost the real one. *)
Lemma C10_single_quoted_href_rewritten :
  rewriteLinksForTracking localhost
    (jsq "<a href='https://x.com' title='say href=`hi`'>link</a>") abc123
  = Ok (jsq "<a href=`http://localhost:4000/api/click?id=abc123&url=hi`'>link</a>").
Proof. by vm_compute. Qed.

(** The anchor with a single-quoted href between two ordinary links:
    both links are rewritten and the anchor stands between them as it
    was. *)
Lemma C10_witness :
  (forall html mt,
      Hit mt ∈ scan true linkRegex html -> opensQuotedHref (matched mt) = true)
  /\ drop 2 (scan true linkRegex (quotedBefore ++ singleQuoted ++ quotedAfter))
     = map Text singleQuoted ++ scan true linkRegex quotedAfter
  /\ rewriteLinksForTracking localhost
       (quotedBefore ++ singleQuoted ++ quotedAfter) abc123 =
     (let! o1 := renderAll (rewriteMatch localhost abc123) beforeSingleQuoted in
      let! o2 := rewriteLinksForTracking localhost quotedAfter abc123 in
      Ok (o1 ++ singleQuoted ++ o2)).
Proof.
  apply (C10_unquoted_anchor_unchanged localhost quotedBefore singleQuoted
           quotedAfter abc123 beforeSingleQuoted
           (drop 2 (scan true linkRegex
                      (quotedBefore ++ singleQuoted ++ quotedAfter)))).
  - vm_compute. reflexivity.
  - vm_compute. reflexivity.
  - vm_compute. reflexivity.
  - vm_compute. reflexivity.
Defined.

(** The same fragment, evaluated. *)
Lemma single_quoted_between_links :
  rewriteLinksForTracking localhost
    (quotedBefore ++ singleQuoted ++ quotedAfter) abc123
  = Ok (jsq "<a href=`http://localhost:4000/api/click?id=abc123&url=https%3A%2F%2Fy.com`>y</a> <a href='https://x.com'>link</a> <a href=`http://localhost:4000/api/click?id=abc123&url=https%3A%2F%2Fz.com`>z</a>").
Proof. by vm_compute. Qed.

(** An anchor with a single-quoted href whose content, not its tag, holds
    a white-space character followed by [href=Q]: no tag of it opens a
    double-quoted href, and it passes through unchanged. *)
Lemma quoted_href_in_content :
  opensQuotedHrefIn (jsq "<a href='https://x.com'>say href=`hi`</a>") = false
  /\ rewriteLinksForTracking localhost
       (jsq "<a href='https://x.com'>say href=`hi`</a>") abc123
     = Ok (jsq "<a href='https://x.com'>say href=`hi`</a>").
Proof. by vm_compute. Qed.

(** An anchor with a single-quoted href that begins inside a match: the
    anchor before it is not closed, the match runs up to the closing tag
    of the single-quoted anchor and writes it in lower case. *)
Lemma single_quoted_inside_match :
  rewriteLinksForTracking localhost
    (jsq "<a href=`https://y.com`>foo <a href='https://x.com'>link</A>") abc123
  = Ok (jsq "<a href=`http://localhost:4000/api/click?id=abc123&url=https%3A%2F%2Fy.com`>foo <a href='https://x.com'>link</a>").
Proof. by vm_compute. Qed.

End Concrete.

(** * Further properties *)

(** ** encodeURIComponent *)

Section EncodeFacts.
Import URI Ranges Coverage.

(** X1: decodeURIComponent undoes encodeURIComponent: for every string of
    code units that encodeURIComponent accepts, decoding its result
    returns the string. *)
Theorem X1_decode_undoes_encode (s e : JSString) :
  Forall (fun c => c < 0x10000) s ->
  encodeURIComponent s = Ok e ->
  decodeURIComponent e = Ok s.
Proof. intros Hs He. by apply decode_encode. Qed.

Lemma hexDigit_unescaped d : d < 16 -> uriUnescaped (hexDigit d) = true.
Proof.
  intros Hd. unfold uriUnescaped, hexDigit, isAlnum.
  apply orb_true_iff. left.
  destruct (d <? 10) eqn:H10.
  - apply N.ltb_lt in H10.
    apply orb_true_iff. left. apply orb_true_iff. left.
    apply andb_true_iff. split; apply N.leb_le; lia.
  - apply N.ltb_ge in H10.
    apply orb_true_iff. left. apply orb_true_iff. right.
    apply andb_true_iff. split; apply N.leb_le; lia.
Qed.

Lemma escapeOctets_alphabet bs :
  Forall (fun b => b < 256) bs ->
  Forall (fun c => uriUnescaped c = true \/ c = percent) (escapeOctets bs).
Proof.
  induction 1 as [|b bs Hb _ IH]; [constructor|].
  unfold escapeOctets in *. cbn [map concat]. apply Forall_app. split; [|done].
  unfold escapeOctet.
  constructor; [by right|]. constructor; [|constructor; [|constructor]].
  - left. apply hexDigit_unescaped. rewrite N.shiftr_div_pow2.
    change (2 ^ 4) with 16. apply N.Div0.div_lt_upper_bound. lia.
  - left. apply hexDigit_unescaped. change 0xF with (N.ones 4).
    rewrite N.land_ones. change (2 ^ 4) with 16. by apply N.mod_lt.
Qed.

Lemma encode_alphabet s : forall e,
  Forall (fun c => c < 0x10000) s ->
  encodeURIComponent s = Ok e ->
  Forall (fun c => uriUnescaped c = true \/ c = percent) e.
Proof.
  induction s as [s IH] using (induction_ltof1 _ (@length N)).
  unfold ltof in IH. intros e Hs He.
  destruct s as [|c s1]; simpl in He.
  { inversion He; subst. constructor. }
  inversion Hs as [|? ? Hc Hs1]; subst.
  destruct (uriUnescaped c) eqn:Hu.
  { destruct (encodeURIComponent s1) as [e1|] eqn:H1; [|discriminate].
    inversion He; subst. constructor; [by left|].
    by apply (IH s1 ltac:(simpl; lia)). }
  destruct (isTrailSurrogate c) eqn:Ht; [discriminate|].
  destruct (isLeadSurrogate c) eqn:Hl.
  - destruct s1 as [|d s2]; [discriminate|].
    destruct (isTrailSurrogate d) eqn:Htd; [|discriminate].
    destruct (encodeURIComponent s2) as [e2|] eqn:H2; [|discriminate].
    inversion He; subst. inversion Hs1; subst.
    destruct (utf16_pair c d Hl Htd) as [Hcp _].
    destruct (astral_decodes _ Hcp) as [Hb _].
    apply Forall_app. split; [by apply escapeOctets_alphabet|].
    by apply (IH s2 ltac:(simpl; lia)).
  - destruct (encodeURIComponent s1) as [e1|] eqn:H1; [|discriminate].
    inversion He; subst.
    assert (Hns : isSurrogate c = false).
    { unfold isSurrogate, isLeadSurrogate, isTrailSurrogate in *.
      rewrite andb_false_iff, !N.leb_gt in *. lia. }
    destruct (bmp_decodes c Hc Hns) as [Hb _].
    apply Forall_app. split; [by apply escapeOctets_alphabet|].
    by apply (IH s1 ltac:(simpl; lia)).
Qed.

(** X2: what encodeURIComponent returns is made of unescaped characters
    (letters, digits and -_.!~*'()) and "%" only; in particular it holds
    no double quote, "&", "<", ">", "#", "=" or space, so the url
    parameter of a rewritten href cannot end the attribute or start
    another parameter. *)
Theorem X2_encoded_alphabet (s e : JSString) :
  Forall (fun c => c < 0x10000) s ->
  encodeURIComponent s = Ok e ->
  Forall (fun c => uriUnescaped c = true \/ c = percent) e
  /\ Forall (fun c => c ∉ delimiters) e.
Proof.
  intros Hs He. pose proof (encode_alphabet s e Hs He) as H.
  split; [done|]. eapply Forall_impl; [exact H|].
  intros c Hc Hin. unfold delimiters in Hin.
  repeat (apply elem_of_cons in Hin as [->|Hin];
          [destruct Hc as [Hc|Hc]; by vm_compute in Hc|]).
  by apply elem_of_nil in Hin.
Qed.

(** A string without surrogates is encoded. *)
Lemma encode_returns s :
  Forall (fun c => isSurrogate c = false) s ->
  exists e, encodeURIComponent s = Ok e.
Proof.
  induction 1 as [|c s Hc _ [e IH]]; [by exists []|].
  assert (isTrailSurrogate c = false /\ isLeadSurrogate c = false) as [Ht Hl].
  { unfold isSurrogate, isLeadSurrogate, isTrailSurrogate in *.
    rewrite !andb_false_iff, !N.leb_gt in *. lia. }
  simpl. rewrite Ht, Hl, IH. destruct (uriUnescaped c); simpl; eauto.
Qed.

(** The only exception of encodeURIComponent is URIError. *)
Lemma encode_throws s e : encodeURIComponent s = Throw e -> e = URIError.
Proof.
  remember (length s) as n eqn:Hn. revert s Hn e.
  induction n as [n IH] using lt_wf_ind.
  intros [|c s1] Hn e; simpl in *; [done|].
  destruct (uriUnescaped c).
  { destruct (encodeURIComponent s1) eqn:E; simpl; [done|].
    intros [= <-]. eapply (IH (length s1)); [lia|done|exact E]. }
  destruct (isTrailSurrogate c); [by intros [= <-]|].
  destruct (isLeadSurrogate c).
  - destruct s1 as [|d s2]; [by intros [= <-]|].
    destruct (isTrailSurrogate d); [|by intros [= <-]].
    destruct (encodeURIComponent s2) eqn:E; simpl; [done|].
    intros [= <-]. eapply (IH (length s2)); [simpl in Hn; lia|done|exact E].
  - destruct (encodeURIComponent s1) eqn:E; simpl; [done|].
    intros [= <-]. eapply (IH (length s1)); [lia|done|exact E].
Qed.

End EncodeFacts.

(** ** The link rewriter, further *)

Section RewriterCoverage.
Import Regex Shape Rewriter Ranges.

Variable BASE_URL : JSString.

(** A match of the scan stands in the input, and is an anchor whose href
    is the first group. *)
Lemma hit_in_input html mt :
  Hit mt ∈ scan true linkRegex html ->
  exists a b lead url attributes content,
    html = a ++ matched mt ++ b
    /\ capture 1 (groups mt) = Some url
    /\ Anchor mt lead url attributes content.
Proof.
  intros Hin.
  destruct (list_elem_of_split _ _ Hin) as (before & after & Hscan).
  pose proof (scan_source _ _ _ _ Hscan) as Hsrc.
  apply scanFrom_hit in Hin as (s' & Hm).
  apply linkRegex_anchor in Hm as (lead & url & attributes & content & HA).
  exists (concat (map source before)), (concat (map source after)),
    lead, url, attributes, content.
  split; [done|]. split; [|done].
  destruct HA as (? & ? & ? & ? & HA). destruct_and!.
  match goal with Hg : groups mt = _ |- _ => by rewrite Hg end.
Qed.

Lemma renderAll_returns f sgs :
  (forall mt, Hit mt ∈ sgs -> exists o, f mt = Ok o) ->
  exists out, renderAll f sgs = Ok out.
Proof.
  induction sgs as [|[c|mt] sgs IH]; intros H; simpl.
  - eauto.
  - destruct IH as [out ->]; [|simpl; eauto].
    intros mt Hin. apply H. by apply elem_of_cons; right.
  - destruct (H mt) as [o ->]; [by apply elem_of_cons; left|].
    destruct IH as [out ->]; [|simpl; eauto].
    intros mt' Hin. apply H. by apply elem_of_cons; right.
Qed.

(** The rewriter returns for every fragment without surrogate code
    units. *)
Lemma rewrite_returns (html trackingId : JSString) :
  Forall (fun c => isSurrogate c = false) html ->
  exists out, rewriteLinksForTracking BASE_URL html trackingId = Ok out.
Proof.
  intros Hs. unfold rewriteLinksForTracking, replace.
  apply renderAll_returns. intros mt Hin.
  destruct (hit_in_input _ _ Hin)
    as (a & b & lead & url & attributes & content & -> & Hurl & HA).
  unfold rewriteMatch. rewrite Hurl.
  destruct (excluded url); [eauto|].
  destruct (encode_returns url) as [e ->]; [|simpl; eauto].
  destruct HA as (tag & sp & ho & close & Hm & _).
  apply Forall_app in Hs as [_ Hs]. apply Forall_app in Hs as [Hs _].
  rewrite Hm in Hs.
  do 4 (apply Forall_app in Hs as [_ Hs]).
  by apply Forall_app in Hs as [Hs _].
Qed.

(** An exception of the replacement is an exception of one callback. *)
Lemma renderAll_throws f sgs e :
  renderAll f sgs = Throw e ->
  exists mt, Hit mt ∈ sgs /\ f mt = Throw e.
Proof.
  induction sgs as [|[c|mt] sgs IH]; simpl; [done| |].
  - destruct (renderAll f sgs); simpl; [done|]. intros [= <-].
    destruct IH as (mt & Hin & Hf); [done|].
    exists mt. split; [by apply elem_of_cons; right|done].
  - destruct (f mt) eqn:Hf; simpl.
    + destruct (renderAll f sgs); simpl; [done|]. intros [= <-].
      destruct IH as (mt' & Hin & Hf'); [done|].
      exists mt'. split; [by apply elem_of_cons; right|done].
    + intros [= <-]. exists mt. split; [by apply elem_of_cons; left|done].
Qed.

(** X3: rewriteLinksForTracking returns for every fragment that holds no
    surrogate code unit, and on any fragment it either returns or raises
    URIError, the exception of encodeURIComponent: it raises nothing
    else. *)
Theorem X3_rewrite_returns (html trackingId : JSString) :
  (Forall (fun c => isSurrogate c = false) html ->
   exists out, rewriteLinksForTracking BASE_URL html trackingId = Ok out)
  /\ ((exists out, rewriteLinksForTracking BASE_URL html trackingId = Ok out)
      \/ rewriteLinksForTracking BASE_URL html trackingId = Throw URIError).
Proof.
  split; [apply rewrite_returns|].
  destruct (rewriteLinksForTracking BASE_URL html trackingId) as [out|e]
    eqn:He; [by left; exists out|right].
  unfold rewriteLinksForTracking, replace in He.
  apply renderAll_throws in He as (mt & Hin & Hf).
  destruct (hit_in_input _ _ Hin)
    as (a & b & lead & url & attributes & content & _ & Hurl & _).
  unfold rewriteMatch in Hf. rewrite Hurl in Hf.
  destruct (excluded url); [done|].
  destruct (URI.encodeURIComponent url) eqn:E; simpl in Hf; [done|].
  injection Hf as <-. f_equal. by eapply encode_throws.
Qed.

Lemma renderAll_sources f sgs :
  (forall mt, Hit mt ∈ sgs -> f mt = Ok (matched mt)) ->
  renderAll f sgs = Ok (concat (map source sgs)).
Proof.
  induction sgs as [|[c|mt] sgs IH]; intros H; simpl.
  - done.
  - rewrite IH; [done|].
    intros mt Hin. apply H. by apply elem_of_cons; right.
  - rewrite (H mt); [|by apply elem_of_cons; left]. simpl.
    rewrite IH; [done|].
    intros mt' Hin. apply H. by apply elem_of_cons; right.
Qed.

(** X4: a fragment in which every anchor the pattern matches has an href
    that starts with "mailto:" or "#" is returned as it is, whatever
    stands around and between the anchors. *)
Theorem X4_only_excluded_unchanged (html trackingId : JSString) :
  (forall mt url,
      Hit mt ∈ scan true linkRegex html ->
      capture 1 (groups mt) = Some url -> excluded url = true) ->
  rewriteLinksForTracking BASE_URL html trackingId = Ok html.
Proof.
  intros H. unfold rewriteLinksForTracking, replace.
  rewrite renderAll_sources.
  - unfold scan. by rewrite scanFrom_source.
  - intros mt Hin.
    destruct (hit_in_input _ _ Hin)
      as (a & b & lead & url & attributes & content & _ & Hurl & _).
    unfold rewriteMatch. by rewrite Hurl, (H mt url Hin Hurl).
Qed.

End RewriterCoverage.

(** ** POST /api/send-email *)

Section SendCoverage.
Import Tracker Coverage Ranges.

Variable BASE_URL : JSString.

Ltac run_send :=
  unfold handle, handler, sendHandler, tryCatch, bind, ret, liftR, create;
  match goal with
  | |- context [negb (truthy (b_to ?b)) || negb (truthy (b_body ?b))
                || negb (truthy (b_trackingId ?b))] =>
      change (negb (truthy (b_to b)) || negb (truthy (b_body b))
              || negb (truthy (b_trackingId b))) with (incomplete b)
  end.

(** X5: a send request that lacks [to], [body] or [trackingId] is
    answered 400 "Missing required fields" and changes nothing: no
    record is created. *)
Theorem X5_send_incomplete_rejected
    (env : Env) (b : SendBody) (st : gmap (list N) Tracking) :
  incomplete b = true ->
  handle BASE_URL env (PostSendEmail b) st
  = (st, Send 400 [] (BError (lit "Missing required fields") None)).
Proof. intros H. run_send. by rewrite H. Qed.

(** X6: a send request whose trackingId is already in the collection is
    answered 500 with the duplicate-key error and leaves the collection
    as it was: the record that exists, with what its engagements have
    set, is not replaced. *)
Theorem X6_send_duplicate_keeps_record
    (env : Env) (b : SendBody) (st : gmap (list N) Tracking) (r : Tracking) :
  incomplete b = false -> createThrows env = false ->
  st !! strOf (b_trackingId b) = Some r ->
  handle BASE_URL env (PostSendEmail b) st
  = (st, Send 500 [] (BError (lit "Failed to send email") (Some DuplicateKey))).
Proof.
  intros H Hc Hr. run_send. rewrite H, Hc. cbn [trackingId newTracking].
  by rewrite Hr.
Qed.

(** X7: the record is stored before the message is composed and mailed.
    A complete send request with a new trackingId stores the fresh
    record whatever happens next: the answer is 200 with the mailer's
    message id when composing and mailing go through, and 500 with the
    error when either throws, the record staying in the collection. *)
Theorem X7_send_stores_before_mailing
    (env : Env) (b : SendBody) (st : gmap (list N) Tracking) :
  incomplete b = false -> createThrows env = false ->
  st !! strOf (b_trackingId b) = None ->
  handle BASE_URL env (PostSendEmail b) st
  = (<[strOf (b_trackingId b) := newTracking env b]> st,
     match composeHtml BASE_URL b with
     | Throw e => Send 500 [] (BError (lit "Failed to send email") (Some e))
     | Ok htmlBody =>
         match sendMail env (strOf (b_to b))
                 (orDefault (b_subject b) (lit "Application")) htmlBody with
         | Ok messageId =>
             Send 200 [] (BSent messageId (strOf (b_trackingId b)))
         | Throw e =>
             Send 500 [] (BError (lit "Failed to send email") (Some e))
         end
     end).
Proof.
  intros H Hc Hr. run_send. rewrite H, Hc. cbn [trackingId newTracking].
  rewrite Hr. destruct (composeHtml BASE_URL b); [|done].
  by destruct (sendMail env _ _ _).
Qed.

Lemma breakLines_app a b : breakLines (a ++ b) = breakLines a ++ breakLines b.
Proof. unfold breakLines. by rewrite map_app, concat_app. Qed.

(** X8: [body.replace(/\n/g, "<br/>")] leaves no line feed in the body,
    works piece by piece on a concatenation, and returns a body without
    line feed as it is. *)
Theorem X8_breakLines (a b : JSString) :
  Forall (fun c => c <> 10) (breakLines a)
  /\ breakLines (a ++ [10] ++ b) = breakLines a ++ lit "<br/>" ++ breakLines b
  /\ (Forall (fun c => c <> 10) a -> breakLines a = a).
Proof.
  split; [|split].
  - induction a as [|c a IH]; [constructor|].
    change (breakLines (c :: a))
      with ((if c =? 10 then lit "<br/>" else [c]) ++ breakLines a).
    apply Forall_app. split; [|done].
    destruct (c =? 10) eqn:Hc.
    + by repeat constructor.
    + apply N.eqb_neq in Hc. by repeat constructor.
  - by rewrite !breakLines_app.
  - induction 1 as [|c a' Hc _ IH]; [done|].
    change (breakLines (c :: a'))
      with ((if c =? 10 then lit "<br/>" else [c]) ++ breakLines a').
    apply N.eqb_neq in Hc. by rewrite Hc, IH.
Qed.

Lemma breakLines_no_surrogate s :
  Forall (fun c => isSurrogate c = false) s ->
  Forall (fun c => isSurrogate c = false) (breakLines s).
Proof.
  induction 1 as [|c s Hc _ IH]; [constructor|].
  change (breakLines (c :: s))
    with ((if c =? 10 then lit "<br/>" else [c]) ++ breakLines s).
  apply Forall_app. split; [|done].
  destruct (c =? 10); by repeat constructor.
Qed.

Lemma startsWith_app q x : startsWith (q ++ x) q = true.
Proof.
  induction q as [|c q IH]; cbn [startsWith app]; [by destruct x|].
  by rewrite N.eqb_refl, IH.
Qed.

Lemma includes_app l p r : Shape.includes (l ++ p ++ r) p = true.
Proof.
  induction l as [|c l IH].
  - cbn [app]. pose proof (startsWith_app p r) as H.
    destruct (p ++ r); cbn [Shape.includes]; by rewrite H.
  - cbn [app Shape.includes]. rewrite IH. apply orb_true_r.
Qed.

Lemma includes_template (a p c d e f g1 i1 i2 h2 u1 u2 u3 : JSString) :
  Shape.includes
    (a ++ p ++ c ++ d ++ e ++ f ++ (g1 ++ i1 ++ [dquote])
     ++ (u1 ++ u2 ++ u3) ++ i2 ++ h2)
    (i1 ++ [dquote] ++ u1 ++ u2 ++ u3 ++ i2) = true.
Proof.
  pose proof (includes_app (a ++ p ++ c ++ d ++ e ++ f ++ g1)
                (i1 ++ [dquote] ++ u1 ++ u2 ++ u3 ++ i2) h2) as H.
  by rewrite <- !app_assoc in *.
Qed.

(** X9: for a body without surrogate code units the message is composed:
    [composeHtml] returns, what it returns holds the body with its line
    feeds replaced and its links rewritten, and it holds the image tag
    whose source is BASE_URL/api/pixel/trackingId. *)
Theorem X9_message_composed (b : SendBody) :
  Forall (fun c => isSurrogate c = false) (strOf (b_body b)) ->
  exists processedBody htmlBody,
    Rewriter.rewriteLinksForTracking BASE_URL
      (breakLines (strOf (b_body b))) (strOf (b_trackingId b))
    = Ok processedBody
    /\ composeHtml BASE_URL b = Ok htmlBody
    /\ Shape.includes htmlBody processedBody = true
    /\ Shape.includes htmlBody
         (lit "<img src=" ++ [dquote] ++ BASE_URL ++ lit "/api/pixel/"
          ++ strOf (b_trackingId b) ++ jsq "` width=`1` height=`1`") = true.
Proof.
  intros Hs.
  destruct (rewrite_returns BASE_URL _ (strOf (b_trackingId b))
              (breakLines_no_surrogate _ Hs)) as [processed Hp].
  exists processed. unfold composeHtml. cbv zeta. rewrite Hp. cbn [rbind].
  eexists. split; [done|]. split; [reflexivity|]. split.
  - apply includes_app.
  - match goal with
    | |- Shape.includes (_ ++ _ ++ _ ++ _ ++ _ ++ _ ++ ?g ++ _ ++ ?h) _ = _ =>
        assert (exists g1, g = g1 ++ lit "<img src=" ++ [dquote])
          as [g1 ->] by (exists (take (length g - 10) g); by vm_compute);
        assert (exists h2, h = jsq "` width=`1` height=`1`" ++ h2)
          as [h2 ->] by (exists (drop 22 h); by vm_compute)
    end.
    apply includes_template.
Qed.

End SendCoverage.

(** ** The records across requests *)

Section RecordCoverage.
Import Tracker Engagement Lifecycle Coverage.

Variable BASE_URL : JSString.

Lemma after_sameMessage t r op : sameMessage r (after t r op).
Proof.
  unfold after. destruct (engages t op); [|by repeat split].
  unfold engage. destruct op as [env [b|id url rq|id rq]]; cbn [fst snd].
  - by repeat split.
  - by repeat split.
  - unfold pixelUpdate. destruct (status r); by repeat split.
Qed.

Lemma foldl_after_sameMessage t ops : forall r,
  sameMessage r (foldl (after t) r ops).
Proof.
  induction ops as [|op ops IH]; intros r; simpl; [by repeat split|].
  pose proof (after_sameMessage t r op) as H1.
  pose proof (IH (after t r op)) as H2.
  unfold sameMessage in *. destruct_and!. repeat split; congruence.
Qed.

(** X10: no request deletes a record or touches the fields that describe
    the message: whatever requests are served, a record that is in the
    collection stays under its key with the same trackingId, to, subject,
    body, role, company and sentAt. *)
Theorem X10_message_fields_never_change
    (st : gmap (list N) Tracking) (t : JSString) (r : Tracking)
    (ops : list (Env * Request)) :
  st !! t = Some r ->
  exists r', run BASE_URL ops st !! t = Some r' /\ sameMessage r r'.
Proof.
  intros Hr. exists (foldl (after t) r ops).
  split; [by apply run_lookup|]. apply foldl_after_sameMessage.
Qed.

Lemma created_key t op r :
  created t op = Some r -> trackingId r = t /\ t <> [].
Proof.
  unfold created, creates. destruct op as [env [b|id url rq|id rq]];
    cbn [fst snd]; try discriminate.
  destruct (_ && _) eqn:Hc; [|discriminate].
  intros H. inversion H; subst; clear H.
  apply andb_true_iff in Hc as [Hc Hid]. apply andb_true_iff in Hc as [Hc _].
  apply andb_true_iff in Hc as [_ Ht]. apply bool_decide_eq_true in Hid.
  cbn [trackingId newTracking]. split; [done|].
  rewrite <- Hid. by destruct (b_trackingId b) as [[|? ?]|].
Qed.

(** X11: in every store the server reaches from the empty collection,
    each record is kept under its own trackingId, and that trackingId is
    not empty. *)
Theorem X11_records_keyed_by_trackingId
    (st : gmap (list N) Tracking) (t : JSString) (r : Tracking) :
  reachable BASE_URL st -> st !! t = Some r ->
  trackingId r = t /\ t <> [].
Proof.
  intros Hreach. revert t r.
  induction Hreach as [|st op _ IH]; intros t r Hr.
  - by rewrite lookup_empty in Hr.
  - rewrite step_lookup in Hr. destruct (st !! t) as [r0|] eqn:Ht.
    + inversion Hr; subst. destruct (IH _ _ Ht) as [Hk Hne].
      split; [|done].
      destruct (after_sameMessage t r0 op) as [Hid _]. congruence.
    + by apply created_key in Hr.
Qed.

(** X12: in every store the server reaches from the empty collection, a
    record is either SENT and never counted (openCount 0) or OPENED and
    counted at least once: status SENT and openCount 0 go together. *)
Theorem X12_sent_iff_never_counted
    (st : gmap (list N) Tracking) (t : JSString) (r : Tracking) :
  reachable BASE_URL st -> st !! t = Some r ->
  (status r = SENT /\ openCount r = 0%Z)
  \/ (status r = OPENED /\ (1 <= openCount r)%Z).
Proof.
  intros Hreach. revert t r.
  induction Hreach as [|st op _ IH]; intros t r Hr.
  - by rewrite lookup_empty in Hr.
  - rewrite step_lookup in Hr. destruct (st !! t) as [r0|] eqn:Ht.
    + inversion Hr; subst. specialize (IH _ _ Ht). unfold after.
      destruct (engages t op) eqn:He; [|done]. right.
      rewrite (engage_openCount t) by done. split; [|lia].
      unfold engages in He. unfold engage.
      destruct op as [env [b|id url rq|id rq]]; cbn [fst snd] in *.
      * by rewrite andb_false_r in He.
      * unfold applyUpdate, clickUpdate. cbn [status u_status setIf].
        by destruct (status r0).
      * unfold applyUpdate, pixelUpdate. cbn [status].
        by destruct (status r0).
    + apply created_fresh in Hr as (Hs & _ & _ & Hc). by left.
Qed.

(** X13: only a send request creates a record: as long as no request of
    a sequence is a send request that creates [t], the collection holds
    no record under [t] after it, whatever pixel fetches and clicks name
    [t]. *)
Theorem X13_only_send_creates
    (st : gmap (list N) Tracking) (t : JSString)
    (ops : list (Env * Request)) :
  st !! t = None ->
  Forall (fun op => creates t op = false) ops ->
  run BASE_URL ops st !! t = None.
Proof.
  intros Hnone Hops. revert st Hnone.
  induction Hops as [|op ops Hop _ IH]; intros st Hnone; [done|].
  simpl. apply IH. rewrite step_lookup, Hnone.
  unfold created. destruct (snd op); [|done..]. by rewrite Hop.
Qed.

(** X14: a click is counted before its url is decoded. When
    decodeURIComponent rejects the url of a click on a record, and the
    store accepts lookup and update, the exception leaves the handler
    (no redirect is sent) and the record has been updated all the same:
    its openCount is one more. *)
Theorem X14_click_counted_without_redirect
    (env : Env) (id url : JSString) (e : JSError) (rq : Req)
    (st : gmap (list N) Tracking) (r : Tracking) :
  id <> [] -> url <> [] -> URI.decodeURIComponent url = Throw e ->
  findOneThrows env = false -> updateOneThrows env = false ->
  st !! id = Some r ->
  snd (handle BASE_URL env (GetClick (Some id) (Some url) rq) st) = Uncaught e
  /\ fst (handle BASE_URL env (GetClick (Some id) (Some url) rq) st) !! id
     = Some (applyUpdate (clickUpdate env rq r) r)
  /\ openCount (applyUpdate (clickUpdate env rq r) r) = (openCount r + 1)%Z.
Proof.
  intros Hid Hurl Hd Hf Hu Hr.
  split; [by apply click_undecodable|]. split; [|done].
  change (fst (handle BASE_URL env (GetClick (Some id) (Some url) rq) st))
    with (step BASE_URL st (env, GetClick (Some id) (Some url) rq)).
  rewrite step_lookup, Hr. unfold after, engages, engage. cbn [fst snd].
  rewrite Hf, Hu. destruct id as [|i id]; [done|].
  destruct url as [|u url]; [done|]. cbn [truthy negb andb].
  change (strOf (Some (i :: id))) with (i :: id).
  by rewrite bool_decide_eq_true_2.
Qed.

(** X15: a click that lacks its id or its url is answered 400 "Missing
      parameters" and changes nothing: no record is looked up or
    updated. *)
Theorem X15_click_missing_parameter
    (env : Env) (id url : option JSString) (rq : Req)
    (st : gmap (list N) Tracking) :
  truthy id && truthy url = false ->
  handle BASE_URL env (GetClick id url rq) st
  = (st, Send 400 [] (BText (lit "Missing parameters"))).
Proof.
  intros H. unfold handle, handler, clickHandler, ret.
  by destruct (truthy id), (truthy url).
Qed.

(** X16: the address and the user agent of a record are those of the
    latest engagement: an engagement whose request carries an address
    and a user-agent header overwrites both fields with them. *)
Theorem X16_requester_last_writer_wins
    (st : gmap (list N) Tracking) (t : JSString) (r : Tracking)
    (op : Env * Request) (rq : Req) (address agent : JSString) :
  st !! t = Some r -> engages t op = true ->
  requester op = Some rq ->
  requesterAddress rq = Some address -> userAgentHeader rq = Some agent ->
  exists r',
    step BASE_URL st op !! t = Some r'
    /\ ipAddress r' = Some address /\ userAgent r' = Some agent.
Proof.
  intros Hr He Hrq Ha Hu. rewrite step_lookup, Hr. unfold after.
  rewrite He. eexists. split; [done|].
  unfold requester in Hrq. unfold engage.
  destruct op as [env [b|id url rq'|id rq']]; cbn [fst snd] in *;
    [discriminate|..]; inversion Hrq; subst.
  - unfold applyUpdate, clickUpdate. cbn. by rewrite Ha, Hu.
  - unfold pixelUpdate. destruct (status r); unfold applyUpdate; cbn;
      by rewrite Ha, Hu.
Qed.

(** X19: a request changes no record but the one it names: under every
    trackingId other than the one of the request, the collection holds
    after the request what it held before. *)
Theorem X19_other_records_untouched
    (st : gmap (list N) Tracking) (op : Env * Request) (t : JSString) :
  target op <> t ->
  step BASE_URL st op !! t = st !! t.
Proof.
  intros Hne. rewrite step_lookup. unfold target in Hne.
  destruct (st !! t) as [r|] eqn:Hr.
  - unfold after, engages.
    destruct op as [env [b|id url rq|id rq]]; cbn [fst snd] in *.
    + by rewrite andb_false_r.
    + rewrite bool_decide_eq_false_2 by done. by rewrite !andb_false_r.
    + rewrite bool_decide_eq_false_2 by done. by rewrite !andb_false_r.
  - unfold created, creates.
    destruct op as [env [b|id url rq|id rq]]; cbn [fst snd] in *; [|done..].
    rewrite bool_decide_eq_false_2 by done. by rewrite !andb_false_r.
Qed.

Lemma unescapeItems_trailing_percent a :
  URI.unescapeItems (a ++ [URI.percent]) = Throw URIError.
Proof.
  induction a as [a IH] using (induction_ltof1 _ (@length N)).
  unfold ltof in IH. destruct a as [|c a1]; [done|].
  cbn [app URI.unescapeItems]. destruct (c =? URI.percent).
  - destruct a1 as [|h1 [|h2 a2]]; cbn [app].
    + done.
    + by destruct (URI.hexValue h1).
    + destruct (URI.hexValue h1), (URI.hexValue h2); try done.
      by rewrite (IH a2 ltac:(simpl; lia)).
  - by rewrite (IH a1 ltac:(simpl; lia)).
Qed.

(** X20: a click whose url ends with "%" never gets a redirect:
    decodeURIComponent rejects every string that ends with "%", inside
    the try and again inside the catch, so the URIError leaves the
    handler. *)
Theorem X20_click_url_ending_in_percent
    (env : Env) (id a : JSString) (rq : Req) (st : gmap (list N) Tracking) :
  id <> [] ->
  URI.decodeURIComponent (a ++ [URI.percent]) = Throw URIError
  /\ snd (handle BASE_URL env
            (GetClick (Some id) (Some (a ++ [URI.percent])) rq) st)
     = Uncaught URIError.
Proof.
  intros Hid.
  assert (Hd : URI.decodeURIComponent (a ++ [URI.percent]) = Throw URIError).
  { unfold URI.decodeURIComponent. by rewrite unescapeItems_trailing_percent. }
  split; [done|]. apply click_undecodable; [done| |done].
  by destruct a.
Qed.

Lemma reachable_coherent (st : gmap (list N) Tracking) t r :
  reachable BASE_URL st -> st !! t = Some r -> coherent r.
Proof.
  intros Hreach. revert t r.
  induction Hreach as [|st op _ IH]; intros t r Hr.
  - by rewrite lookup_empty in Hr.
  - rewrite step_lookup in Hr. destruct (st !! t) as [r0|] eqn:Ht.
    + inversion Hr; subst. unfold after.
      destruct (engages t op); [apply engage_coherent|]; eauto.
    + apply created_fresh in Hr as (Hs & Hm & Ho & _).
      unfold coherent. rewrite Hs, Hm, Ho. split; split; done.
Qed.

(** X22: once a record is opened, the two channels do the same to it: in
    a store the server reaches, a pixel fetch and a click for an OPENED
    record, by the same requester at the same instant, leave the same
    record (openCount one more, address and user agent overwritten,
    status, openedAt and method as they were). *)
Theorem X22_channels_agree_once_opened
    (st : gmap (list N) Tracking) (t url : JSString) (r : Tracking)
    (env : Env) (rq : Req) :
  reachable BASE_URL st -> st !! t = Some r -> status r = OPENED ->
  t <> [] -> url <> [] ->
  step BASE_URL st (env, GetPixel t rq) !! t
  = step BASE_URL st (env, GetClick (Some t) (Some url) rq) !! t.
Proof.
  intros Hreach Hr Hs Ht Hurl.
  destruct (reachable_coherent _ _ _ Hreach Hr) as [H1 H2].
  destruct (openedAt r) as [d|] eqn:Ho; [|by apply H1 in Hs].
  destruct (method r) as [m|] eqn:Hm; [|by destruct (proj1 H2)].
  rewrite !step_lookup, Hr. f_equal. unfold after, engages. cbn [fst snd].
  destruct t as [|c t]; [done|]. destruct url as [|u url]; [done|].
  change (strOf (Some (c :: t))) with (c :: t). cbn [truthy andb].
  destruct (negb (findOneThrows env) && negb (updateOneThrows env)
            && bool_decide (c :: t = c :: t)); [|done].
  unfold engage. cbn [fst snd].
  unfold pixelUpdate, clickUpdate, applyUpdate. rewrite Hs. cbn.
  by rewrite Ho, Hm.
Qed.

Lemma orDefault_nonempty v d : d <> [] -> orDefault v d <> [].
Proof.
  intros Hd. unfold orDefault. by destruct v as [[|? ?]|].
Qed.

(** X23: in every store the server reaches from the empty collection,
    no record has an empty to, body, subject, role or company: to and
    body are required by the send request, and the three others fall
    back to "Application", "Position" and "Company". *)
Theorem X23_message_fields_never_empty
    (st : gmap (list N) Tracking) (t : JSString) (r : Tracking) :
  reachable BASE_URL st -> st !! t = Some r ->
  to r <> [] /\ body r <> [] /\ subject r <> [] /\ role r <> []
  /\ company r <> [].
Proof.
  intros Hreach. revert t r.
  induction Hreach as [|st op _ IH]; intros t r Hr.
  - by rewrite lookup_empty in Hr.
  - rewrite step_lookup in Hr. destruct (st !! t) as [r0|] eqn:Ht.
    + inversion Hr; subst. specialize (IH _ _ Ht).
      destruct (after_sameMessage t r0 op) as (_ & E1 & E2 & E3 & E4 & E5 & _).
      rewrite E1, E2, E3, E4, E5. tauto.
    + unfold created, creates in Hr.
      destruct op as [env [b|id url rq|id rq]]; cbn [fst snd] in Hr;
        try discriminate.
      destruct (_ && _) eqn:Hc; [|discriminate].
      inversion Hr; subst; clear Hr.
      apply andb_true_iff in Hc as [Hc _]. apply andb_true_iff in Hc as [Hc _].
      apply andb_true_iff in Hc as [Hc _]. apply andb_true_iff in Hc as [Hto Hbody].
      cbn [to body subject role company newTracking].
      split; [by destruct (b_to b) as [[|? ?]|]|].
      split; [by destruct (b_body b) as [[|? ?]|]|].
      split; [by apply orDefault_nonempty|].
      split; by apply orDefault_nonempty.
Qed.

End RecordCoverage.

(** ** The read endpoints *)

Section ReaderCoverage.
Import Tracker Engagement Lifecycle Coverage Reader.

Variable BASE_URL : JSString.

Lemma read_found (env : Env) (t : JSString)
    (st : gmap (list N) Tracking) (r : Tracking) :
  findOneThrows env = false -> st !! t = Some r ->
  serve (trackingHandler env t) st = (st, RecordJson r).
Proof.
  intros Hf Hr. unfold serve, trackingHandler, tryCatch, bind, ret, findOne.
  by rewrite Hf, Hr.
Qed.

(** X17: GET /api/tracking/:id reports what the state machine has
    recorded and changes nothing. Before the send request that creates
    [t] the answer is 404; after it and any further requests the answer
    is the record of [t], whose openCount is the number of engagement
    events on [t] among these requests; whenever the lookup is rejected
    the answer is 500. *)
Theorem X17_read_one_reports_record
    (env : Env) (st0 : gmap (list N) Tracking) (t : JSString)
    (send : Env * Request) (ops : list (Env * Request)) :
  st0 !! t = None -> creates t send = true ->
  serve (trackingHandler env t) st0
  = (st0, if findOneThrows env
          then ReadError 500 (lit "Failed to fetch tracking record")
          else ReadError 404 (lit "Tracking record not found"))
  /\ exists r,
       run BASE_URL ops (step BASE_URL st0 send) !! t = Some r
       /\ trackingId r = t
       /\ openCount r = Z.of_nat (engagements t ops)
       /\ serve (trackingHandler env t)
            (run BASE_URL ops (step BASE_URL st0 send))
          = (run BASE_URL ops (step BASE_URL st0 send),
             if findOneThrows env
             then ReadError 500 (lit "Failed to fetch tracking record")
             else RecordJson r).
Proof.
  intros Hnone Hsend. split.
  - unfold serve, trackingHandler, tryCatch, bind, ret, findOne.
    destruct (findOneThrows env); [done|]. by rewrite Hnone.
  - assert (exists r0, step BASE_URL st0 send !! t = Some r0
                       /\ trackingId r0 = t /\ openCount r0 = 0%Z)
      as (r0 & Hr0 & Hk & Hc).
    { rewrite step_lookup, Hnone.
      destruct (created t send) as [r0|] eqn:Hcr.
      - exists r0. split; [done|].
        split; [by apply created_key in Hcr as [? _]|].
        by apply created_fresh in Hcr as (_ & _ & _ & Hc).
      - unfold created in Hcr. unfold creates in Hsend.
        destruct (snd send) eqn:Hop; try discriminate.
        unfold creates in Hcr. rewrite Hop, Hsend in Hcr. discriminate. }
    exists (foldl (after t) r0 ops).
    assert (Hr : run BASE_URL ops (step BASE_URL st0 send) !! t
                 = Some (foldl (after t) r0 ops)) by by apply run_lookup.
    split; [done|]. split.
    { destruct (foldl_after_sameMessage t ops r0) as [Hid _]. congruence. }
    split.
    { rewrite foldl_after_openCount, Hc. lia. }
    destruct (findOneThrows env) eqn:Hf.
    + unfold serve, trackingHandler, tryCatch, bind, ret, findOne.
      by rewrite Hf.
    + by apply read_found.
Qed.

Lemma insertBySentAt_perm r l : insertBySentAt r l ≡ₚ r :: l.
Proof.
  induction l as [|x l IH]; simpl; [done|].
  destruct (sentAt x <=? sentAt r)%Z; [done|].
  rewrite IH. apply Permutation_swap.
Qed.

Lemma sortBySentAtDesc_perm l : sortBySentAtDesc l ≡ₚ l.
Proof.
  induction l as [|x l IH]; simpl; [done|].
  unfold sortBySentAtDesc in *. simpl.
  by rewrite insertBySentAt_perm, IH.
Qed.

Lemma insertBySentAt_newestFirst r l :
  newestFirst l -> newestFirst (insertBySentAt r l).
Proof.
  induction l as [|x l IH]; intros Hl; simpl.
  - split; [constructor|done].
  - destruct Hl as [Hx Hl].
    destruct (sentAt x <=? sentAt r)%Z eqn:Hle.
    + apply Z.leb_le in Hle. split; [|by split].
      constructor; [done|].
      eapply Forall_impl; [exact Hx|]. intros y Hy. simpl in Hy. lia.
    + apply Z.leb_gt in Hle. split; [|by apply IH].
      rewrite insertBySentAt_perm. constructor; [lia|done].
Qed.

Lemma sortBySentAtDesc_newestFirst l : newestFirst (sortBySentAtDesc l).
Proof.
  induction l as [|x l IH]; simpl; [done|].
  by apply insertBySentAt_newestFirst.
Qed.

(** X18: GET /api/tracking-status changes nothing. When the store
    rejects the query the answer is 500; when it accepts the query the
    answer holds every record of the collection exactly once, newest
    [sentAt] first: the list is a permutation of the collection's
    records, it has as many entries as the collection has records, and
    no record in it is followed by one sent later. *)
Theorem X18_listing_complete_newest_first (st : gmap (list N) Tracking) :
  serve (statusHandler true) st
  = (st, ReadError 500 (lit "Failed to fetch tracking data"))
  /\ exists records,
       serve (statusHandler false) st = (st, RecordsJson records)
       /\ records ≡ₚ snd <$> map_to_list st
       /\ length records = size st
       /\ newestFirst records
       /\ forall r, r ∈ records <-> exists t, st !! t = Some r.
Proof.
  unfold serve, statusHandler, tryCatch, bind, ret, find.
  split; [done|].
  exists (sortBySentAtDesc (snd <$> map_to_list st)).
  pose proof (sortBySentAtDesc_perm (snd <$> map_to_list st)) as Hp.
  split; [done|]. split; [done|]. split.
  { by rewrite Hp, length_fmap, length_map_to_list. }
  split; [apply sortBySentAtDesc_newestFirst|].
  intros r. rewrite Hp, list_elem_of_fmap. split.
  + intros ([t r'] & -> & Hin). exists t.
    by apply elem_of_map_to_list in Hin.
  + intros [t Ht]. exists (t, r). split; [done|].
    by apply elem_of_map_to_list.
Qed.

End ReaderCoverage.

(** ** The link round trip *)

Section RoundTripCoverage.
Import Tracker Ranges.

Variable BASE_URL : JSString.

(** X21: the round trip of a link holds for every non-empty href that
    has neither "%" nor a surrogate code unit: encodeURIComponent accepts the href,
    the url parameter it yields is decoded once to the href, and the
    click endpoint, given the href, redirects to exactly the href. *)
Theorem X21_link_round_trip_without_percent
    (env : Env) (id u : JSString) (rq : Req) (st : gmap (list N) Tracking) :
  id <> [] -> u <> [] ->
  Forall (fun c => c < 0x10000) u ->
  Forall (fun c => isSurrogate c = false) u ->
  Forall (fun c => c <> URI.percent) u ->
  exists e,
    URI.encodeURIComponent u = Ok e
    /\ URI.decodeURIComponent e = Ok u
    /\ snd (handle BASE_URL env (GetClick (Some id) (Some u) rq) st)
       = Redirect u.
Proof.
  intros Hid Hu Hunits Hsurr Hplain.
  destruct (encode_returns u Hsurr) as [e He]. exists e.
  split; [done|]. split; [by apply decode_encode|].
  by apply click_round_trip_plain.
Qed.

End RoundTripCoverage.

(** ** Further properties on concrete inputs *)

Section ConcreteCoverage.
Import Regex Shape Rewriter Tracker Engagement Lifecycle Sample.
Import Ranges Coverage Reader Sample2.

Lemma allExcluded_spec sgs :
  allExcluded sgs = true ->
  forall mt url,
    Hit mt ∈ sgs -> capture 1 (groups mt) = Some url -> excluded url = true.
Proof.
  unfold allExcluded. rewrite forallb_forall. intros H mt url Hin Hc.
  apply list_elem_of_In in Hin. specialize (H _ Hin). simpl in H.
  by rewrite Hc in H.
Qed.

Lemma forallb_holds {A} (P : A -> Prop) (f : A -> bool) (l : list A) :
  (forall x, f x = true -> P x) -> forallb f l = true -> Forall P l.
Proof.
  intros Hf. induction l as [|x l IH]; simpl; [constructor|].
  intros [Hx Hl]%andb_true_iff. constructor; [by apply Hf|by apply IH].
Qed.

Lemma no_surrogate_holds (s : JSString) :
  forallb (fun c => negb (isSurrogate c)) s = true ->
  Forall (fun c => isSurrogate c = false) s.
Proof.
  apply forallb_holds. intros c. by destruct (isSurrogate c).
Qed.

(** A string with a space, a slash, an accented letter and a character of
    another plane. *)
Lemma X1_witness :
  URI.decodeURIComponent (lit "a%20b%2F%C3%A9%F0%9F%98%80")
  = Ok (lit "a b/" ++ [233; 0xD83D; 0xDE00]).
Proof.
  apply (X1_decode_undoes_encode (lit "a b/" ++ [233; 0xD83D; 0xDE00])
           (lit "a%20b%2F%C3%A9%F0%9F%98%80")).
  - repeat constructor.
  - vm_compute. reflexivity.
Defined.

Lemma X2_witness :
  Forall (fun c => URI.uriUnescaped c = true \/ c = URI.percent)
    (lit "a%20b%2F%C3%A9%F0%9F%98%80")
  /\ Forall (fun c => c ∉ delimiters) (lit "a%20b%2F%C3%A9%F0%9F%98%80").
Proof.
  apply (X2_encoded_alphabet (lit "a b/" ++ [233; 0xD83D; 0xDE00])
           (lit "a%20b%2F%C3%A9%F0%9F%98%80")).
  - repeat constructor.
  - vm_compute. reflexivity.
Defined.

Lemma X3_witness :
  exists out, rewriteLinksForTracking localhost twoLinks abc123 = Ok out.
Proof.
  apply (proj1 (X3_rewrite_returns localhost twoLinks abc123)).
  apply no_surrogate_holds. vm_compute. reflexivity.
Defined.

(** An href with an unpaired surrogate: the rewriter raises URIError. *)
Lemma rewrite_lone_surrogate :
  rewriteLinksForTracking localhost
    (jsq "<a href=`https://x.com/" ++ [0xD83D] ++ jsq "`>x</a>") abc123
  = Throw URIError.
Proof. by vm_compute. Qed.

Lemma X4_witness :
  rewriteLinksForTracking localhost onlyExcluded abc123 = Ok onlyExcluded.
Proof.
  apply (X4_only_excluded_unchanged localhost onlyExcluded abc123).
  apply allExcluded_spec. vm_compute. reflexivity.
Defined.

Lemma X5_witness :
  handle localhost (at_ 1000) (PostSendEmail noBody) oneRecord
  = (oneRecord, Send 400 [] (BError (lit "Missing required fields") None)).
Proof.
  apply (X5_send_incomplete_rejected localhost (at_ 1000) noBody oneRecord).
  reflexivity.
Defined.

Lemma X6_witness :
  handle localhost (at_ 1400) (PostSendEmail hello) oneRecord
  = (oneRecord,
     Send 500 [] (BError (lit "Failed to send email") (Some DuplicateKey))).
Proof.
  apply (X6_send_duplicate_keeps_record localhost (at_ 1400) hello oneRecord
           openedByPixel).
  - reflexivity.
  - reflexivity.
  - vm_compute. reflexivity.
Defined.

Lemma X7_witness :
  handle localhost (mailDownAt 1000) (PostSendEmail hello) ∅
  = (<[strOf (b_trackingId hello) := newTracking (mailDownAt 1000) hello]> ∅,
     match composeHtml localhost hello with
     | Throw e => Send 500 [] (BError (lit "Failed to send email") (Some e))
     | Ok htmlBody =>
         match sendMail (mailDownAt 1000) (strOf (b_to hello))
                 (orDefault (b_subject hello) (lit "Application")) htmlBody with
         | Ok messageId =>
             Send 200 [] (BSent messageId (strOf (b_trackingId hello)))
         | Throw e =>
             Send 500 [] (BError (lit "Failed to send email") (Some e))
         end
     end).
Proof.
  apply (X7_send_stores_before_mailing localhost (mailDownAt 1000) hello ∅).
  - reflexivity.
  - reflexivity.
  - reflexivity.
Defined.

(** The same request, evaluated: the mailer is down, the answer is 500,
    the record is in the collection. *)
Lemma send_with_mailer_down :
  snd (handle localhost (mailDownAt 1000) (PostSendEmail hello) ∅)
  = Send 500 [] (BError (lit "Failed to send email") (Some MailError))
  /\ exists r,
       fst (handle localhost (mailDownAt 1000) (PostSendEmail hello) ∅)
         !! abc123 = Some r
       /\ fresh r.
Proof.
  split; [by vm_compute|]. eexists. split; [by vm_compute|].
  by repeat split.
Qed.

Lemma X8_witness :
  Forall (fun c => c <> 10) (breakLines (lit "Dear team,"))
  /\ breakLines (lit "Dear team," ++ [10] ++ lit "I apply.")
     = breakLines (lit "Dear team,") ++ lit "<br/>"
       ++ breakLines (lit "I apply.")
  /\ breakLines (lit "Dear team,") = lit "Dear team,".
Proof.
  destruct (X8_breakLines (lit "Dear team,") (lit "I apply."))
    as (H1 & H2 & H3).
  split; [exact H1|]. split; [exact H2|]. apply H3.
  apply (forallb_holds _ (fun c => negb (c =? 10))).
  - intros c Hc ->. discriminate.
  - vm_compute. reflexivity.
Defined.

Lemma X9_witness :
  exists processedBody htmlBody,
    rewriteLinksForTracking localhost
      (breakLines (strOf (b_body hello))) (strOf (b_trackingId hello))
    = Ok processedBody
    /\ composeHtml localhost hello = Ok htmlBody
    /\ includes htmlBody processedBody = true
    /\ includes htmlBody
         (lit "<img src=" ++ [dquote] ++ localhost ++ lit "/api/pixel/"
          ++ strOf (b_trackingId hello) ++ jsq "` width=`1` height=`1`")
       = true.
Proof.
  apply (X9_message_composed localhost hello).
  apply no_surrogate_holds. vm_compute. reflexivity.
Defined.

Lemma X10_witness :
  exists r',
    run localhost [clickAt 3000; (at_ 1400, PostSendEmail hello)] oneRecord
      !! abc123 = Some r'
    /\ sameMessage openedByPixel r'.
Proof.
  apply (X10_message_fields_never_change localhost oneRecord abc123
           openedByPixel [clickAt 3000; (at_ 1400, PostSendEmail hello)]).
  vm_compute. reflexivity.
Defined.

Lemma X11_witness : trackingId openedByPixel = abc123 /\ abc123 <> [].
Proof.
  apply (X11_records_keyed_by_trackingId localhost
           (step localhost (step localhost ∅ sendHello) (pixelAt 2000))
           abc123 openedByPixel).
  - apply reach_step, reach_step, reach_empty.
  - vm_compute. reflexivity.
Defined.

Lemma X12_witness :
  (status openedByPixel = SENT /\ openCount openedByPixel = 0%Z)
  \/ (status openedByPixel = OPENED /\ (1 <= openCount openedByPixel)%Z).
Proof.
  apply (X12_sent_iff_never_counted localhost
           (step localhost (step localhost ∅ sendHello) (pixelAt 2000))
           abc123 openedByPixel).
  - apply reach_step, reach_step, reach_empty.
  - vm_compute. reflexivity.
Defined.

Lemma X13_witness :
  run localhost [pixelAt 2000; clickAt 3000; (at_ 1000, PostSendEmail noBody)]
    ∅ !! abc123 = None.
Proof.
  apply (X13_only_send_creates localhost ∅ abc123
           [pixelAt 2000; clickAt 3000; (at_ 1000, PostSendEmail noBody)]).
  - reflexivity.
  - repeat constructor.
Defined.

Lemma X14_witness :
  snd (handle localhost (at_ 3000)
         (GetClick (Some abc123) (Some (lit "https://x.com/?off=100%")) browser)
         oneRecord) = Uncaught URIError
  /\ fst (handle localhost (at_ 3000)
            (GetClick (Some abc123) (Some (lit "https://x.com/?off=100%")) browser)
            oneRecord) !! abc123
     = Some (applyUpdate (clickUpdate (at_ 3000) browser openedByPixel)
               openedByPixel)
  /\ openCount (applyUpdate (clickUpdate (at_ 3000) browser openedByPixel)
                  openedByPixel)
     = (openCount openedByPixel + 1)%Z.
Proof.
  apply (X14_click_counted_without_redirect localhost (at_ 3000) abc123
           (lit "https://x.com/?off=100%") URIError browser oneRecord
           openedByPixel).
  - discriminate.
  - discriminate.
  - vm_compute. reflexivity.
  - reflexivity.
  - reflexivity.
  - vm_compute. reflexivity.
Defined.

Lemma X15_witness :
  handle localhost (at_ 3000) (GetClick (Some abc123) None browser) oneRecord
  = (oneRecord, Send 400 [] (BText (lit "Missing parameters"))).
Proof.
  apply (X15_click_missing_parameter localhost (at_ 3000) (Some abc123) None
           browser oneRecord).
  reflexivity.
Defined.

Lemma X16_witness :
  exists r',
    step localhost oneRecord (clickAt 3000) !! abc123 = Some r'
    /\ ipAddress r' = Some (lit "203.0.113.7")
    /\ userAgent r' = Some (lit "Mozilla/5.0").
Proof.
  apply (X16_requester_last_writer_wins localhost oneRecord abc123
           openedByPixel (clickAt 3000) browser).
  - vm_compute. reflexivity.
  - vm_compute. reflexivity.
  - reflexivity.
  - reflexivity.
  - reflexivity.
Defined.

Lemma X17_witness :
  serve (trackingHandler (at_ 9000) abc123) ∅
  = (∅, if findOneThrows (at_ 9000)
        then ReadError 500 (lit "Failed to fetch tracking record")
        else ReadError 404 (lit "Tracking record not found"))
  /\ exists r,
       run localhost [pixelAt 2000; clickAt 3000]
         (step localhost ∅ sendHello) !! abc123 = Some r
       /\ trackingId r = abc123
       /\ openCount r
          = Z.of_nat (engagements abc123 [pixelAt 2000; clickAt 3000])
       /\ serve (trackingHandler (at_ 9000) abc123)
            (run localhost [pixelAt 2000; clickAt 3000]
               (step localhost ∅ sendHello))
          = (run localhost [pixelAt 2000; clickAt 3000]
               (step localhost ∅ sendHello),
             if findOneThrows (at_ 9000)
             then ReadError 500 (lit "Failed to fetch tracking record")
             else RecordJson r).
Proof.
  apply (X17_read_one_reports_record localhost (at_ 9000) ∅ abc123 sendHello
           [pixelAt 2000; clickAt 3000]).
  - reflexivity.
  - vm_compute. reflexivity.
Defined.

(** The same reading with the store down: the answer is 500. *)
Lemma read_with_store_down :
  serve (trackingHandler (storeDownAt 9000) abc123) oneRecord
  = (oneRecord, ReadError 500 (lit "Failed to fetch tracking record")).
Proof. by vm_compute. Qed.

(** The listing of two records: the one sent at 5000 comes first. *)
Lemma listing_two_records :
  serve (statusHandler false) twoRecords
  = (twoRecords, RecordsJson [later; openedByPixel]).
Proof. by vm_compute. Qed.

Lemma X19_witness :
  step localhost twoRecords (clickAt 3000) !! lit "def456"
  = twoRecords !! lit "def456".
Proof.
  apply (X19_other_records_untouched localhost twoRecords (clickAt 3000)
           (lit "def456")).
  vm_compute. discriminate.
Defined.

Lemma X22_witness :
  step localhost (step localhost (step localhost ∅ sendHello) (pixelAt 2000))
    (at_ 3000, GetPixel abc123 browser) !! abc123
  = step localhost (step localhost (step localhost ∅ sendHello) (pixelAt 2000))
      (at_ 3000, GetClick (Some abc123) (Some (lit "https://x.com")) browser)
      !! abc123.
Proof.
  apply (X22_channels_agree_once_opened localhost
           (step localhost (step localhost ∅ sendHello) (pixelAt 2000))
           abc123 (lit "https://x.com") openedByPixel (at_ 3000) browser).
  - apply reach_step, reach_step, reach_empty.
  - vm_compute. reflexivity.
  - reflexivity.
  - discriminate.
  - discriminate.
Defined.

Lemma X23_witness :
  to openedByPixel <> [] /\ body openedByPixel <> []
  /\ subject openedByPixel <> [] /\ role openedByPixel <> []
  /\ company openedByPixel <> [].
Proof.
  apply (X23_message_fields_never_empty localhost
           (step localhost (step localhost ∅ sendHello) (pixelAt 2000))
           abc123 openedByPixel).
  - apply reach_step, reach_step, reach_empty.
  - vm_compute. reflexivity.
Defined.

Lemma X20_witness :
  URI.decodeURIComponent (lit "https://x.com/?off=100" ++ [URI.percent])
  = Throw URIError
  /\ snd (handle localhost (at_ 3000)
            (GetClick (Some abc123)
               (Some (lit "https://x.com/?off=100" ++ [URI.percent])) browser)
            oneRecord)
     = Uncaught URIError.
Proof.
  apply (X20_click_url_ending_in_percent localhost (at_ 3000) abc123
           (lit "https://x.com/?off=100") browser oneRecord).
  discriminate.
Defined.

Lemma X21_witness :
  exists e,
    URI.encodeURIComponent (lit "https://x.com/a b") = Ok e
    /\ URI.decodeURIComponent e = Ok (lit "https://x.com/a b")
    /\ snd (handle localhost (at_ 3000)
              (GetClick (Some abc123) (Some (lit "https://x.com/a b")) browser)
              oneRecord)
       = Redirect (lit "https://x.com/a b").
Proof.
  apply (X21_link_round_trip_without_percent localhost (at_ 3000) abc123
           (lit "https://x.com/a b") browser oneRecord).
  - discriminate.
  - discriminate.
  - apply (forallb_holds _ (fun c => c <? 0x10000)).
    + intros c. apply N.ltb_lt.
    + vm_compute. reflexivity.
  - apply no_surrogate_holds. vm_compute. reflexivity.
  - apply (forallb_holds _ (fun c => negb (c =? URI.percent))).
    + intros c Hc ->. discriminate.
    + vm_compute. reflexivity.
Defined.

End ConcreteCoverage.
